(** * The client-side data loader of ice: packages/runtime/src/dataLoader.ts

    A shallow embedding of the module: the custom fetcher slot, the loader
    resolver [callDataLoader], the result cache, the bootstrap seeding
    [loadInitialDataInClient], [init] and the installed [getData] accessor.

    JavaScript values are an inductive type with the truthiness test of the
    language; the module's mutable bindings ([cache], [dataLoaderFetcher],
    the [window.__ICE_DATA_LOADER__] handle) are fields of an explicit state
    that is threaded through a small state-and-exception monad; functions
    supplied by the host application (loaders, the fetcher, runtime plugins)
    are opaque: an oracle gives the outcome of every call, and every call is
    appended to a trace kept in the state, which is what the statements on
    "the loader is invoked ..." count. *)

From stdpp Require Import gmap strings list fin_maps.

(** ** JavaScript values *)

(** A pending value (Promise) is represented by the way it eventually
    settles; [Pending] is a promise that never settles. Numbers are the
    integers (no NaN, no fractions). A function object is known by its
    name. [VLater n v] is a promise that settles the way [v] does, [n]
    ticks later; a [VPromise] adds no delay of its own. *)
#[local] Unset Elimination Schemes.
Inductive value : Type :=
| VUndefined
| VNull
| VBool (b : bool)
| VNum (n : Z)
| VStr (s : string)
| VArr (items : list value)
| VObj (fields : list (string * value))
| VError (name message : string)
| VFunction (f : string)
| VPromise (p : promise)
| VLater (ticks : nat) (v : value)
with promise : Type :=
| Fulfilled (v : value)
| Rejected (reason : value)
| Pending.
#[local] Set Elimination Schemes.

(** [if (v)] *)
Definition truthy (v : value) : bool :=
  match v with
  | VUndefined | VNull => false
  | VBool b => b
  | VNum n => negb (n =? 0)%Z
  | VStr s => negb (String.eqb s "")
  | _ => true
  end.

(** [await v]: a plain value is its own result, a promise gives its
    settlement (a promise resolved with a promise adopts its state). *)
Fixpoint await (v : value) : promise :=
  match v with
  | VPromise p =>
      match p with
      | Fulfilled v' => await v'
      | Rejected e => Rejected e
      | Pending => Pending
      end
  | VLater _ v' => await v'
  | _ => Fulfilled v
  end.

(** When a value that settles does so, in ticks from now. *)
Fixpoint settle_time (v : value) : nat :=
  match v with
  | VLater ticks v' => ticks + settle_time v'
  | VPromise p =>
      match p with
      | Fulfilled v' => settle_time v'
      | _ => 0
      end
  | _ => 0
  end.

(** The rejection that comes first in time among the members of a list,
    with the tick at which it comes; of two that come at the same tick, the
    one listed first. *)
Fixpoint earliest_rejection (vs : list value) : option (nat * value) :=
  match vs with
  | [] => None
  | v :: rest =>
      match await v, earliest_rejection rest with
      | Rejected e, Some (t', e') =>
          if (t' <? settle_time v)%nat then Some (t', e') else Some (settle_time v, e)
      | Rejected e, None => Some (settle_time v, e)
      | _, later => later
      end
  end.

(** The results of a list of settlements when all are fulfilled. *)
Fixpoint all_fulfilled (ps : list promise) : option (list value) :=
  match ps with
  | [] => Some []
  | Fulfilled v :: rest =>
      match all_fulfilled rest with
      | Some vs => Some (v :: vs)
      | None => None
      end
  | _ :: _ => None
  end.

(** [Promise.all(vs)]: rejected as soon as one member is rejected, with
    the reason of the member that rejects first in time; fulfilled with the
    results in input order once all are fulfilled; pending otherwise. *)
Definition promise_all (vs : list value) : promise :=
  match earliest_rejection vs with
  | Some (_, e) => Rejected e
  | None =>
      match all_fulfilled (map await vs) with
      | Some rs => Fulfilled (VArr rs)
      | None => Pending
      end
  end.

(** Calling [undefined]: what [loadDataByCustomFetcher] raises while the
    fetcher slot is empty. *)
Definition not_a_function : value :=
  VError "TypeError" "dataLoaderFetcher is not a function".

(** ** Loader declarations *)

(** Function objects of the host application are known by name. *)
Definition fn_id := string.

(** Modelled from the spec: the type [DataLoaderConfig] is declared in
    types.ts, which is not part of the sources at hand. The spec gives three
    shapes: a function, a descriptor object for the custom fetcher, or an
    ordered batch of functions and descriptors. [callDataLoader] tells them
    apart with [Array.isArray] and [typeof ... === 'object']. The [config]
    of a descriptor is an object, neither [null] nor an array: anything else
    is not a value of the type, and the code would take it for no loader or
    for a batch. *)
Inductive DataLoaderItem : Type :=
| ItemFn (f : fn_id)
| ItemDescriptor (config : value).

Inductive DataLoaderConfig : Type :=
| LoaderFn (f : fn_id)
| LoaderDescriptor (config : value)
| LoaderBatch (items : list DataLoaderItem).

(** [interface Loaders { [routeId: string]: DataLoaderConfig }]: the own
    properties of the loader config object. *)
Abbreviation Loaders := (gmap string DataLoaderConfig).

(** ** Plain objects used as maps *)

(** The loader config and [routesData] are plain objects, and [object[id]]
    on a plain object falls back to [Object.prototype] when the object has
    no own property [id]. These are the function members of
    [Object.prototype]; the remaining member, [__proto__], is an accessor
    that gives [Object.prototype] itself. *)
Definition object_prototype_functions : list string :=
  ["constructor"; "hasOwnProperty"; "isPrototypeOf"; "propertyIsEnumerable";
   "toLocaleString"; "toString"; "valueOf"; "__defineGetter__";
   "__defineSetter__"; "__lookupGetter__"; "__lookupSetter__"].

(** The name under which a builtin of [Object.prototype] is known. *)
Definition builtin (name : string) : fn_id := "Object.prototype." +:+ name.

Definition object_prototype : value :=
  VObj (map (fun name => (name, VFunction (builtin name))) object_prototype_functions).

(** [Object.prototype[id]] *)
Definition inherited (id : string) : option value :=
  if bool_decide (id ∈ object_prototype_functions) then Some (VFunction (builtin id))
  else if String.eqb id "__proto__" then Some object_prototype
  else None.

(** [loaders[id]] as the code reads it: the own declaration, or else the
    inherited member, which [callDataLoader] takes for a function-form
    loader when it is a function and for a descriptor when it is an
    object. *)
Definition declared (loaders : Loaders) (id : string) : option DataLoaderConfig :=
  match loaders !! id with
  | Some dataLoader => Some dataLoader
  | None =>
      match inherited id with
      | Some (VFunction f) => Some (LoaderFn f)
      | Some member => Some (LoaderDescriptor member)
      | None => None
      end
  end.

(** [interface CachedResult { value: any; status: string }] *)
Record CachedResult : Type := mkCached { value_of : value; status : string }.

(** A cache record seen as the JavaScript object it is. *)
Definition record_object (r : CachedResult) : value :=
  VObj [("value", value_of r); ("status", VStr (status r))].

(** [{ ssg?: boolean }], the second argument of [getData] *)
Record GetDataOptions : Type := mkOptions { ssg : option bool }.

(** [options?.ssg] as a condition *)
Definition ssg_set (options : option GetDataOptions) : bool :=
  match options with
  | Some o => match ssg o with Some b => b | None => false end
  | None => false
  end.

(** [window.__ICE_APP_CONTEXT__] *)
Record AppContext : Type := mkContext {
  matchedIds : option (list string);
  routesData : option (gmap string value);
  renderMode : option string
}.

(** A runtime module is the plugin function or a CommonJS wrapper with the
    function under [default]. *)
Inductive RuntimeModule : Type :=
| EsModule (plugin : fn_id)
| CommonJsRuntime (default : fn_id).

(** [interface LoaderOptions] *)
Record LoaderOptions : Type := mkLoaderOptions {
  fetcher : option fn_id;
  runtimeModules : option (list RuntimeModule);
  appExport : value
}.

(** ** The outside world *)

Inductive call_outcome : Type :=
| Returns (v : value)
| Throws (e : value).

Section Model.

(** [window.location] and the request context built from it by
    requestContext.ts are opaque to this module. *)
Variables Location RequestContext : Type.

(** Calls that leave the module. *)
Inductive event : Type :=
| EvLoader (f : fn_id) (requestContext : RequestContext)
| EvFetcher (g : fn_id) (config : value)
| EvPlugin (p : fn_id) (runtimeApi : value).

(** The host application and the page: what each external function does
    when it is called, which may depend on all calls made before; the
    functions do not call back into this module. The builtins of
    [Object.prototype], which the code can reach through an inherited
    property and then calls like a loader, are among the functions whose
    behaviour [loader_fn] gives, under the names [builtin] gives them. *)
Record World : Type := mkWorld {
  window_location : Location;
  getRequestContext : Location -> RequestContext;
  loader_fn : fn_id -> RequestContext -> list event -> call_outcome;
  fetcher_fn : fn_id -> value -> list event -> call_outcome;
  plugin_fn : fn_id -> value -> list event -> call_outcome
}.

(** ** Module state *)

Record state : Type := mkState {
  cache : gmap string CachedResult;        (* const cache = new Map() *)
  dataLoaderFetcher : option fn_id;         (* let dataLoaderFetcher *)
  ICE_DATA_LOADER : option Loaders;         (* window.__ICE_DATA_LOADER__,
                                               the config its getData closes over *)
  calls : list event;                       (* trace of external calls, oldest first *)
  console_error : list value                (* errors given to console.error *)
}.

(** The state when the module has just been loaded. *)
Definition fresh : state :=
  {| cache := ∅; dataLoaderFetcher := None; ICE_DATA_LOADER := None;
     calls := []; console_error := [] |}.

Definition set_cache (c : gmap string CachedResult) (st : state) : state :=
  {| cache := c; dataLoaderFetcher := dataLoaderFetcher st;
     ICE_DATA_LOADER := ICE_DATA_LOADER st; calls := calls st;
     console_error := console_error st |}.

Definition set_fetcher_slot (g : option fn_id) (st : state) : state :=
  {| cache := cache st; dataLoaderFetcher := g;
     ICE_DATA_LOADER := ICE_DATA_LOADER st; calls := calls st;
     console_error := console_error st |}.

Definition set_handle (h : option Loaders) (st : state) : state :=
  {| cache := cache st; dataLoaderFetcher := dataLoaderFetcher st;
     ICE_DATA_LOADER := h; calls := calls st;
     console_error := console_error st |}.

Definition record_call (ev : event) (st : state) : state :=
  {| cache := cache st; dataLoaderFetcher := dataLoaderFetcher st;
     ICE_DATA_LOADER := ICE_DATA_LOADER st; calls := calls st ++ [ev];
     console_error := console_error st |}.

Definition log_error (e : value) (st : state) : state :=
  {| cache := cache st; dataLoaderFetcher := dataLoaderFetcher st;
     ICE_DATA_LOADER := ICE_DATA_LOADER st; calls := calls st;
     console_error := console_error st ++ [e] |}.

(** ** Synchronous code: state and exceptions *)

Inductive result (A : Type) : Type :=
| Ok (a : A) (st : state)
| Throw (e : value) (st : state).
Arguments Ok {A} a st.
Arguments Throw {A} e st.

Definition M (A : Type) : Type := state -> result A.

Definition ret {A} (a : A) : M A := fun st => Ok a st.

Definition bind {A B} (m : M A) (k : A -> M B) : M B :=
  fun st =>
    match m st with
    | Ok a st' => k a st'
    | Throw e st' => Throw e st'
    end.

Notation "x <- m ;; k" := (bind m (fun x => k))
  (at level 100, m at next level, right associativity).
Notation "m ;;; k" := (bind m (fun _ => k))
  (at level 100, right associativity).

Definition final_state {A} (r : result A) : state :=
  match r with Ok _ st => st | Throw _ st => st end.

(** [array.map(f)] with an effectful callback: left to right, a throw stops
    the traversal. *)
Fixpoint mapM {A B} (f : A -> M B) (l : list A) : M (list B) :=
  match l with
  | [] => ret []
  | a :: rest => b <- f a ;; bs <- mapM f rest ;; ret (b :: bs)
  end.

(** [array.forEach(f)] *)
Fixpoint forEach {A} (f : A -> M unit) (l : list A) : M unit :=
  match l with
  | [] => ret tt
  | a :: rest => f a ;;; forEach f rest
  end.

Variable W : World.

(** Calling one of the host application's functions. *)
Definition external (ev : event) (behaviour : list event -> call_outcome) : M value :=
  fun st =>
    match behaviour (calls st) with
    | Returns v => Ok v (record_call ev st)
    | Throws e => Throw e (record_call ev st)
    end.

(** ** The custom fetcher *)

Definition setFetcher (customFetcher : fn_id) : M unit :=
  fun st => Ok tt (set_fetcher_slot (Some customFetcher) st).

Definition loadDataByCustomFetcher (config : value) : M value :=
  fun st =>
    match dataLoaderFetcher st with
    | Some g => external (EvFetcher g config) (fetcher_fn W g config) st
    | None => Throw not_a_function st
    end.

(** ** callDataLoader *)

Definition call_item (requestContext : RequestContext) (loader : DataLoaderItem) : M value :=
  match loader with
  | ItemDescriptor config => loadDataByCustomFetcher config
  | ItemFn f => external (EvLoader f requestContext) (loader_fn W f requestContext)
  end.

Definition callDataLoader (dataLoader : DataLoaderConfig) (requestContext : RequestContext)
  : M value :=
  match dataLoader with
  | LoaderBatch items =>
      loaders <- mapM (call_item requestContext) items ;;
      ret (VPromise (promise_all loaders))
  | LoaderDescriptor config => loadDataByCustomFetcher config
  | LoaderFn f => external (EvLoader f requestContext) (loader_fn W f requestContext)
  end.

(** ** The result cache and its seeding *)

(** [cache.set(key, record)] *)
Definition cache_set (key : string) (record : CachedResult) : M unit :=
  fun st => Ok tt (set_cache (<[key := record]> (cache st)) st).

(** [object[id]] on a plain object used as a map, [data] being its own
    properties: the own property, or else the member inherited from
    [Object.prototype], or else [undefined]. *)
Definition property (data : gmap string value) (id : string) : value :=
  match data !! id with
  | Some v => v
  | None => default VUndefined (inherited id)
  end.

(** [renderMode === 'SSG'] and the like *)
Definition mode_is (renderMode : option string) (tag : string) : bool :=
  match renderMode with
  | Some m => String.eqb m tag
  | None => false
  end.

(** The body of the [ids.forEach] callback of [loadInitialDataInClient];
    [skip] is the early [return] of the SSR case. *)
Definition seed_id (loaders : Loaders) (data : gmap string value)
    (mode : option string) (id : string) : M unit :=
  let dataFromSSR := property data id in
  skip <-
    (if truthy dataFromSSR then
       cache_set (if mode_is mode "SSG" then id +:+ "_ssg" else id)
                 {| value_of := dataFromSSR; status := "RESOLVED" |} ;;;
       ret (mode_is mode "SSR")
     else ret false) ;;
  if (skip : bool) then ret tt
  else
    match declared loaders id with
    | Some dataLoader =>
        let requestContext := getRequestContext W (window_location W) in
        loader <- callDataLoader dataLoader requestContext ;;
        cache_set id {| value_of := loader; status := "LOADING" |}
    | None => ret tt
    end.

(** The ids that are seeded, in order. *)
Definition seeded_ids (context : option AppContext) : list string :=
  "_app" :: default [] (context ≫= matchedIds).

Definition loadInitialDataInClient (loaders : Loaders) (context : option AppContext)
  : M unit :=
  let data := default ∅ (context ≫= routesData) in
  let mode := context ≫= renderMode in
  forEach (seed_id loaders data mode) (seeded_ids context).

(** ** getData *)

(** The body of the [getData] closure installed by [init]; being an async
    function it returns a promise, given here by its settlement, and a throw
    in its body is a rejection. Everything it does to the state happens
    before its first suspension, so calls made one after the other without
    awaiting act on the state in call order. *)
Definition getData (dataloaderConfig : Loaders) (id : string)
    (options : option GetDataOptions) (st : state) : promise * state :=
  let result := if ssg_set options then cache st !! (id +:+ "_ssg") else cache st !! id in
  match result with
  | Some r =>
      if String.eqb (status r) "RESOLVED" then (Fulfilled (record_object r), st)
      else
        match value_of r with
        | VArr items => (promise_all items, st)
        | v => (await v, st)
        end
  | None =>
      match declared dataloaderConfig id with
      | None => (Fulfilled VNull, st)
      | Some dataLoader =>
          let requestContext := getRequestContext W (window_location W) in
          match callDataLoader dataLoader requestContext st with
          | Ok v st' => (await v, st')
          | Throw e st' => (Rejected e, st')
          end
      end
  end.

(** [window.__ICE_DATA_LOADER__.getData(id, options)] as UI code calls it:
    before [init] has installed the handle the call itself throws. *)
Definition window_getData (id : string) (options : option GetDataOptions)
    (st : state) : option (promise * state) :=
  match ICE_DATA_LOADER st with
  | Some dataloaderConfig => Some (getData dataloaderConfig id options st)
  | None => None
  end.

(** A run of [getData] calls made one after the other. *)
Fixpoint getData_many (dataloaderConfig : Loaders)
    (requests : list (string * option GetDataOptions)) (st : state)
  : list promise * state :=
  match requests with
  | [] => ([], st)
  | (id, options) :: rest =>
      let '(p, st1) := getData dataloaderConfig id options st in
      let '(ps, st2) := getData_many dataloaderConfig rest st1 in
      (p :: ps, st2)
  end.

(** ** init *)

Definition runtimeApi (options : LoaderOptions) : value :=
  VObj [("appContext", VObj [("appExport", appExport options)])].

Definition plugin_of (module : RuntimeModule) : fn_id :=
  match module with
  | EsModule plugin => plugin
  | CommonJsRuntime default => default
  end.

Definition run_plugin (api : value) (module : RuntimeModule) : M value :=
  let runtimeModule := plugin_of module in
  external (EvPlugin runtimeModule api) (plugin_fn W runtimeModule api).

(** The first step of [init]: start every plugin, then await
    [Promise.all] of what they returned, falsy results filtered out. The
    pair is the settlement of that await (fulfilled at once when there are
    no runtime modules) and the state at that point; a plugin that throws
    while being started rejects [init] there and then. *)
Definition run_plugins (options : LoaderOptions) (st : state) : promise * state :=
  match runtimeModules options with
  | Some modules =>
      match mapM (run_plugin (runtimeApi options)) modules st with
      | Throw e st' => (Rejected e, st')
      | Ok started st' => (promise_all (List.filter truthy started), st')
      end
  | None => (Fulfilled VUndefined, st)
  end.

(** [if (fetcher) { setFetcher(fetcher); }] *)
Definition register_fetcher (options : LoaderOptions) : M unit :=
  match fetcher options with
  | Some f => setFetcher f
  | None => ret tt
  end.

(** The state in which [init] starts seeding, once the plugins are done. *)
Definition before_seeding (options : LoaderOptions) (st : state) : state :=
  final_state (register_fetcher options (snd (run_plugins options st))).

(** The [try]/[catch] around the seeding, then the installation of
    [window.__ICE_DATA_LOADER__]. *)
Definition seed_and_install (dataloaderConfig : Loaders)
    (context : option AppContext) (st : state) : state :=
  let st' :=
    match loadInitialDataInClient dataloaderConfig context st with
    | Ok _ st' => st'
    | Throw error st' => log_error error st'
    end in
  set_handle (Some dataloaderConfig) st'.

(** [init] is async: its promise is fulfilled with [undefined] once the
    handle is installed; a plugin that throws or rejects makes it reject,
    and a plugin that never settles leaves it pending, in both cases before
    anything else is done. *)
Definition init (dataloaderConfig : Loaders) (options : LoaderOptions)
    (context : option AppContext) (st : state) : promise * state :=
  match run_plugins options st with
  | (Fulfilled _, _) =>
      (Fulfilled VUndefined,
       seed_and_install dataloaderConfig context (before_seeding options st))
  | (p, st') => (p, st')
  end.

(** ** Counting invocations in the trace *)

Definition is_loader_call (f : fn_id) (ev : event) : bool :=
  match ev with
  | EvLoader g _ => String.eqb f g
  | _ => false
  end.

(** How many times the loader function [f] has been invoked. *)
Definition loader_calls (f : fn_id) (trace : list event) : nat :=
  length (List.filter (is_loader_call f) trace).

Definition is_data_call (ev : event) : bool :=
  match ev with
  | EvLoader _ _ | EvFetcher _ _ => true
  | EvPlugin _ _ => false
  end.

End Model.

Arguments Ok {RequestContext A} a st.
Arguments Throw {RequestContext A} e st.
Arguments EvLoader {RequestContext} f requestContext.
Arguments EvFetcher {RequestContext} g config.
Arguments EvPlugin {RequestContext} p runtimeApi.
Arguments mkWorld {Location RequestContext}.
Arguments window_location {Location RequestContext} w.
Arguments getRequestContext {Location RequestContext} w _.
Arguments loader_fn {Location RequestContext} w _ _ _.
Arguments fetcher_fn {Location RequestContext} w _ _ _.
Arguments plugin_fn {Location RequestContext} w _ _ _.
Arguments mkState {RequestContext}.
Arguments cache {RequestContext} s.
Arguments dataLoaderFetcher {RequestContext} s.
Arguments ICE_DATA_LOADER {RequestContext} s.
Arguments calls {RequestContext} s.
Arguments console_error {RequestContext} s.
Arguments fresh {RequestContext}.
Arguments set_cache {RequestContext} c st.
Arguments set_fetcher_slot {RequestContext} g st.
Arguments set_handle {RequestContext} h st.
Arguments record_call {RequestContext} ev st.
Arguments log_error {RequestContext} e st.
Arguments ret {RequestContext A} a _.
Arguments bind {RequestContext A B} m k _.
Arguments final_state {RequestContext A} r.
Arguments mapM {RequestContext A B} f l _.
Arguments forEach {RequestContext A} f l _.
Arguments external {RequestContext} ev behaviour _.
Arguments setFetcher {RequestContext} customFetcher _.
Arguments loadDataByCustomFetcher {Location RequestContext} W config _.
Arguments call_item {Location RequestContext} W requestContext loader _.
Arguments callDataLoader {Location RequestContext} W dataLoader requestContext _.
Arguments cache_set {RequestContext} key record _.
Arguments seed_id {Location RequestContext} W loaders data mode id _.
Arguments loadInitialDataInClient {Location RequestContext} W loaders context _.
Arguments getData {Location RequestContext} W dataloaderConfig id options st.
Arguments window_getData {Location RequestContext} W id options st.
Arguments getData_many {Location RequestContext} W dataloaderConfig requests st.
Arguments run_plugin {Location RequestContext} W api module _.
Arguments run_plugins {Location RequestContext} W options st.
Arguments register_fetcher {RequestContext} options _.
Arguments before_seeding {Location RequestContext} W options st.
Arguments seed_and_install {Location RequestContext} W dataloaderConfig context st.
Arguments init {Location RequestContext} W dataloaderConfig options context st.
Arguments is_loader_call {RequestContext} f ev.
Arguments loader_calls {RequestContext} f trace.
Arguments is_data_call {RequestContext} ev.

(** ** A concrete page, for the examples *)

Module Example.

(** Locations and request contexts are URLs; a loader called ["broken"]
    throws when called, ["listing"] returns an array of pending values at
    once, every other loader returns a promise of an object naming it; the
    fetcher returns a promise of the descriptor; plugins return nothing. *)
Definition page : World string string :=
  {| window_location := "https://example.com/home";
     getRequestContext := fun url => url;
     loader_fn := fun f _ _ =>
       if String.eqb f "broken" then Throws (VError "Error" "boom")
       else if String.eqb f "listing" then
         Returns (VArr [VPromise (Fulfilled (VNum 1)); VNum 2])
       else Returns (VPromise (Fulfilled (VObj [("from", VStr f)])));
     fetcher_fn := fun _ config _ => Returns (VPromise (Fulfilled config));
     plugin_fn := fun _ _ _ => Returns VUndefined |}.

Definition no_options : LoaderOptions :=
  {| fetcher := None; runtimeModules := None; appExport := VUndefined |}.

Definition user_x : value := VObj [("user", VStr "x")].

(** The scenario of the specification: [matchedIds = ['home']],
    [routesData = { _app: {user:'x'} }], [renderMode = 'SSR'] and the loader
    config [{ home: fetchHomeData }]. *)
Definition ssr_context : option AppContext :=
  Some {| matchedIds := Some ["home"];
          routesData := Some {[ "_app" := user_x ]};
          renderMode := Some "SSR" |}.

Definition home_loaders : Loaders := {[ "home" := LoaderFn "fetchHomeData" ]}.


(** A descriptor-form loader and a config that declares it for a layout
    route. *)
Definition api_home : value := VObj [("url", VStr "/api/home")].

Definition layout_loaders : Loaders := {[ "layout" := LoaderDescriptor api_home ]}.

Definition home_descriptor : Loaders := {[ "home" := LoaderDescriptor api_home ]}.

(** A static-generation page whose home route has hydration data. *)
Definition ssg_context : option AppContext :=
  Some {| matchedIds := Some ["home"];
          routesData := Some {[ "home" := user_x ]};
          renderMode := Some "SSG" |}.

(** The same with a layout route matched before home. *)
Definition ssg_layout_context : option AppContext :=
  Some {| matchedIds := Some ["layout"; "home"];
          routesData := Some {[ "home" := user_x ]};
          renderMode := Some "SSG" |}.

(** A static-generation page with a route named like the snapshot key of
    another, and a loader for it. *)
Definition ssg_clash_context : option AppContext :=
  Some {| matchedIds := Some ["home"; "home_ssg"];
          routesData := Some {[ "home" := user_x ]};
          renderMode := Some "SSG" |}.

Definition clash_loaders : Loaders := {[ "home_ssg" := LoaderFn "fetchOther" ]}.

(** A static-generation page whose hydration data for home is [null]. *)
Definition ssg_null_context : option AppContext :=
  Some {| matchedIds := Some ["home"];
          routesData := Some {[ "home" := VNull ]};
          renderMode := Some "SSG" |}.

(** Client-side rendered pages: without hydration data, with the home route
    listed twice, and with hydration data for home. *)
Definition csr_context : option AppContext :=
  Some {| matchedIds := Some ["home"]; routesData := None;
          renderMode := Some "CSR" |}.

Definition csr_twice_context : option AppContext :=
  Some {| matchedIds := Some ["home"; "home"]; routesData := None;
          renderMode := Some "CSR" |}.

Definition csr_hydrated_context : option AppContext :=
  Some {| matchedIds := Some ["home"];
          routesData := Some {[ "home" := user_x ]};
          renderMode := Some "CSR" |}.

(** A loader that returns an array of pending values. *)
Definition list_loaders : Loaders := {[ "list" := LoaderFn "listing" ]}.

Definition list_context : option AppContext :=
  Some {| matchedIds := Some ["list"]; routesData := None;
          renderMode := Some "CSR" |}.

(** A layout route whose function-form loader throws when called. *)
Definition broken_loaders : Loaders := {[ "layout" := LoaderFn "broken" ]}.

(** The module state once [init] is done, on some of these pages. *)
Definition after_init (cfg : Loaders) (context : option AppContext) : state string :=
  snd (init page cfg no_options context fresh).


(** ** Further pages *)

(** A page like [page] where no loader throws. *)
Definition calm : World string string :=
  {| window_location := "https://example.com/home";
     getRequestContext := fun url => url;
     loader_fn := fun f _ _ => Returns (VPromise (Fulfilled (VObj [("from", VStr f)])));
     fetcher_fn := fun _ config _ => Returns (VPromise (Fulfilled config));
     plugin_fn := fun _ _ _ => Returns VUndefined |}.

(** A page like [page] with plugins that misbehave: ["crash"] throws on
    being started, ["bad"] returns a promise that rejects, ["slow"] one that
    never settles, ["ready"] one that is fulfilled; the others return
    nothing. *)
Definition plugin_page : World string string :=
  {| window_location := "https://example.com/home";
     getRequestContext := fun url => url;
     loader_fn := loader_fn page;
     fetcher_fn := fetcher_fn page;
     plugin_fn := fun p _ _ =>
       if String.eqb p "crash" then Throws (VError "Error" "crash")
       else if String.eqb p "bad" then Returns (VPromise (Rejected (VStr "bad")))
       else if String.eqb p "slow" then Returns (VPromise Pending)
       else if String.eqb p "ready" then Returns (VPromise (Fulfilled (VNum 1)))
       else Returns VUndefined |}.

Definition with_modules (modules : list RuntimeModule) : LoaderOptions :=
  {| fetcher := Some "fetch"; runtimeModules := Some modules;
     appExport := VStr "app" |}.

(** The module state with a fetcher registered. *)
Definition fetching : state string := set_fetcher_slot (Some "fetch") fresh.

(** A batch of a function, a descriptor and another function. *)
Definition batch_items : list DataLoaderItem :=
  [ItemFn "first"; ItemDescriptor api_home; ItemFn "second"].

Definition batch_loaders : Loaders := {[ "home" := LoaderBatch batch_items ]}.

(** A server-rendered page with hydration data for every seeded id. *)
Definition ssr_full_context : option AppContext :=
  Some {| matchedIds := Some ["home"];
          routesData := Some (<["home" := VStr "home data"]> {[ "_app" := user_x ]});
          renderMode := Some "SSR" |}.


(** A page like [page] on which the builtins of [Object.prototype] do what
    they do in a browser when they are called the way a loader is, with the
    request context as argument and without a receiver: [toString] answers
    for an undefined receiver, [constructor] hands back its argument (here an
    object holding the URL), and the others throw a TypeError. *)
Definition browser : World string string :=
  {| window_location := "https://example.com/home";
     getRequestContext := fun url => url;
     loader_fn := fun f url trace =>
       if String.eqb f (builtin "toString") then Returns (VStr "[object Undefined]")
       else if String.eqb f (builtin "constructor") then Returns (VObj [("url", VStr url)])
       else if String.prefix "Object.prototype." f then
         Throws (VError "TypeError" "Cannot convert undefined or null to object")
       else loader_fn page f url trace;
     fetcher_fn := fetcher_fn page;
     plugin_fn := plugin_fn page |}.

(** A loader config without declarations. *)
Definition no_loaders : Loaders := ∅.


(** Pages with a matched route named like a member of [Object.prototype]:
    client-side rendered without hydration data; server-rendered with a
    loader declared for the route; server-rendered with [null] as the
    hydration data of the route. *)
Definition valueOf_context : option AppContext :=
  Some {| matchedIds := Some ["valueOf"]; routesData := None;
          renderMode := Some "CSR" |}.

Definition constructor_context : option AppContext :=
  Some {| matchedIds := Some ["constructor"]; routesData := None;
          renderMode := Some "SSR" |}.

Definition constructor_loaders : Loaders := {[ "constructor" := LoaderFn "loadPage" ]}.

Definition toString_null_context : option AppContext :=
  Some {| matchedIds := Some ["toString"];
          routesData := Some {[ "toString" := VNull ]};
          renderMode := Some "SSR" |}.

End Example.

(** ** Vocabulary of the statements *)

(** The cache key that [getData(id, options)] looks up. *)
Definition lookup_key (id : string) (options : option GetDataOptions) : string :=
  if ssg_set options then id +:+ "_ssg" else id.

(** [Array.isArray(v)] *)
Definition isArray (v : value) : bool :=
  match v with VArr _ => true | _ => false end.

(** [{ ssg: true }] *)
Definition ssg_true : option GetDataOptions := Some {| ssg := Some true |}.

(** The state with further external calls appended to its trace. *)
Definition record_calls {RequestContext : Type} (evs : list (event RequestContext))
    (st : state RequestContext) : state RequestContext :=
  {| cache := cache st; dataLoaderFetcher := dataLoaderFetcher st;
     ICE_DATA_LOADER := ICE_DATA_LOADER st; calls := calls st ++ evs;
     console_error := console_error st |}.

(** How many calls of the function [f] one complete resolution of a loader
    declaration makes. *)
Definition item_refs (f : fn_id) (item : DataLoaderItem) : nat :=
  match item with
  | ItemFn g => if String.eqb f g then 1 else 0
  | ItemDescriptor _ => 0
  end.

Definition refs (f : fn_id) (dataLoader : option DataLoaderConfig) : nat :=
  match dataLoader with
  | Some (LoaderFn g) => if String.eqb f g then 1 else 0
  | Some (LoaderDescriptor _) => 0
  | Some (LoaderBatch items) => sum_list (map (item_refs f) items)
  | None => 0
  end.

(** A cache holding a LOADING record under [key]. *)
Definition loading_at (c : gmap string CachedResult) (key : string) : Prop :=
  exists r, c !! key = Some r /\ status r = "LOADING".

(** The state of a seeding step after its hydration write, if any: the
    state in which the step goes on to resolve the loader. *)
Definition hydrated {RequestContext : Type} (data : gmap string value)
    (mode : option string) (id : string) (st : state RequestContext)
  : state RequestContext :=
  if truthy (property data id) then
    set_cache (<[(if mode_is mode "SSG" then id +:+ "_ssg" else id) :=
                   {| value_of := property data id; status := "RESOLVED" |}]>
                 (cache st)) st
  else st.

(** The cache record written over the key [id] once a loader is resolved. *)
Definition loading (loader : value) : CachedResult :=
  {| value_of := loader; status := "LOADING" |}.

(** The cache record of hydration data. *)
Definition resolved (data : value) : CachedResult :=
  {| value_of := data; status := "RESOLVED" |}.

(** How many calls of [f] the declarations of the ids of a list make in
    all, each id counted as often as it occurs. *)
Definition declared_calls (f : fn_id) (cfg : Loaders) (ids : list string) : nat :=
  sum_list (map (fun id => refs f (declared cfg id)) ids).

(** What [getData] gives for the value of a LOADING record. *)
Definition unwrapped (v : value) : promise :=
  match v with
  | VArr items => promise_all items
  | _ => await v
  end.

(** The external calls that resolving one item of a batch makes, given the
    fetcher slot. *)
Definition item_events {RequestContext : Type} (slot : option fn_id)
    (requestContext : RequestContext) (item : DataLoaderItem)
  : list (event RequestContext) :=
  match item with
  | ItemFn f => [EvLoader f requestContext]
  | ItemDescriptor config =>
      match slot with
      | Some g => [EvFetcher g config]
      | None => []
      end
  end.

(** The calls that starting a list of runtime modules makes. *)
Definition plugin_events {RequestContext : Type} (api : value)
    (modules : list RuntimeModule) : list (event RequestContext) :=
  map (fun module => EvPlugin (plugin_of module) api) modules.

(** Whether the seeding step of [id] goes on to the loader of [id]: it does
    unless the page is server-rendered and has hydration data for [id]. *)
Definition resolving (data : gmap string value) (mode : option string)
    (id : string) : bool :=
  negb (truthy (property data id) && mode_is mode "SSR").

(** The records that the module writes: RESOLVED with truthy data, or
    LOADING. *)
Definition record_ok (r : CachedResult) : Prop :=
  (status r = "RESOLVED" /\ truthy (value_of r) = true) \/ status r = "LOADING".

Definition cache_ok (c : gmap string CachedResult) : Prop :=
  forall key r, c !! key = Some r -> record_ok r.

(** The fetcher slot once [init] has registered [options.fetcher]. *)
Definition registered (options : LoaderOptions) (slot : option fn_id) : option fn_id :=
  match fetcher options with
  | Some g => Some g
  | None => slot
  end.

(** An error thrown by a call made after the trace [before]: the last call
    of [trace], of a function called as a loader with the request context or
    of the registered fetcher, threw [e]. *)
Definition thrown_by_host {Location RequestContext : Type}
    (W : World Location RequestContext) (requestContext : RequestContext)
    (slot : option fn_id) (before trace : list (event RequestContext))
    (e : value) : Prop :=
  (exists f evs,
     trace = before ++ evs ++ [EvLoader f requestContext]
     /\ loader_fn W f requestContext (before ++ evs) = Throws e)
  \/ (exists g config evs,
        slot = Some g
        /\ trace = before ++ evs ++ [EvFetcher g config]
        /\ fetcher_fn W g config (before ++ evs) = Throws e).

(** Whether a string ends in [_ssg], the suffix of snapshot keys. *)
Fixpoint ends_ssg (s : string) : bool :=
  match s with
  | EmptyString => false
  | String _ rest => String.eqb s "_ssg" || ends_ssg rest
  end.

(** * Properties *)

Section Properties.

Variables Location RequestContext : Type.
Variable W : World Location RequestContext.

Abbreviation State := (state RequestContext).
Abbreviation here := (getRequestContext W (window_location W)).

(** ** Pending values *)

Lemma earliest_rejection_fulfilled (items : list value) (results : list value) :
  Forall2 (fun v x => await v = Fulfilled x) items results ->
  earliest_rejection items = None.
Proof.
  induction 1 as [|v x items results Hv _ IH]; simpl; [done|].
  by rewrite Hv.
Qed.

Lemma all_fulfilled_results (items : list value) (results : list value) :
  Forall2 (fun v x => await v = Fulfilled x) items results ->
  all_fulfilled (map await items) = Some results.
Proof.
  induction 1 as [|v x items results Hv _ IH]; simpl; [done|].
  by rewrite Hv, IH.
Qed.

(** [Promise.all] of values that are all fulfilled is fulfilled with their
    results, in the order of the input. *)
Lemma promise_all_results (items results : list value) :
  Forall2 (fun v x => await v = Fulfilled x) items results ->
  promise_all items = Fulfilled (VArr results).
Proof.
  intros H. unfold promise_all.
  by rewrite (earliest_rejection_fulfilled _ _ H), (all_fulfilled_results _ _ H).
Qed.

(** One rejected member rejects the aggregate. *)
Lemma promise_all_rejected (items : list value) (v e : value) :
  v ∈ items -> await v = Rejected e ->
  exists e', promise_all items = Rejected e'.
Proof.
  intros Hin Hv. unfold promise_all.
  assert (exists t e', earliest_rejection items = Some (t, e')) as (t & e' & ->);
    [|by eexists].
  induction Hin as [v items|v w items _ IH]; simpl.
  - rewrite Hv. destruct (earliest_rejection items) as [[t' e']|]; [|by eauto].
    destruct (t' <? settle_time v)%nat; eauto.
  - destruct (IH Hv) as (t' & e' & ->).
    destruct (await w); [by eauto| |by eauto].
    destruct (t' <? settle_time w)%nat; by eauto.
Qed.

(** ** The trace *)

Lemma record_calls_nil (st : State) : record_calls [] st = st.
Proof. destruct st. unfold record_calls. simpl. by rewrite app_nil_r. Qed.

Lemma record_call_calls (ev : event RequestContext) (st : State) :
  record_call ev st = record_calls [ev] st.
Proof. reflexivity. Qed.

Lemma record_calls_app (evs1 evs2 : list (event RequestContext)) (st : State) :
  record_calls evs2 (record_calls evs1 st) = record_calls (evs1 ++ evs2) st.
Proof. unfold record_calls. simpl. by rewrite app_assoc. Qed.

Lemma loader_calls_app (f : fn_id) (t1 t2 : list (event RequestContext)) :
  loader_calls f (t1 ++ t2) = loader_calls f t1 + loader_calls f t2.
Proof. unfold loader_calls. by rewrite List.filter_app, length_app. Qed.

(** The key looked up by [getData]. *)
Lemma getData_lookup (id : string) (options : option GetDataOptions) (st : State) :
  (if ssg_set options then cache st !! (id +:+ "_ssg") else cache st !! id)
  = cache st !! lookup_key id options.
Proof. unfold lookup_key. by destruct (ssg_set options). Qed.

(** ** Resolving a loader touches nothing but the trace *)

Lemma external_trace ev behaviour (st : State) :
  final_state (external ev behaviour st) = record_calls [ev] st.
Proof. unfold external. by destruct (behaviour (calls st)). Qed.

Lemma loadDataByCustomFetcher_trace (config : value) (st : State) :
  exists evs, final_state (loadDataByCustomFetcher W config st) = record_calls evs st.
Proof.
  unfold loadDataByCustomFetcher. destruct (dataLoaderFetcher st) as [g|].
  - exists [EvFetcher g config]. apply external_trace.
  - exists []. simpl. by rewrite record_calls_nil.
Qed.

Lemma call_item_trace rc (item : DataLoaderItem) (st : State) :
  exists evs, final_state (call_item W rc item st) = record_calls evs st.
Proof.
  destruct item as [f|config]; simpl.
  - eexists. apply external_trace.
  - apply loadDataByCustomFetcher_trace.
Qed.

Lemma mapM_call_item_trace rc (items : list DataLoaderItem) (st : State) :
  exists evs, final_state (mapM (call_item W rc) items st) = record_calls evs st.
Proof.
  revert st. induction items as [|item items IH]; intros st; simpl.
  - exists []. by rewrite record_calls_nil.
  - unfold bind. destruct (call_item_trace rc item st) as [evs1 H1].
    destruct (call_item W rc item st) as [v st1|e st1]; simpl in H1; subst st1.
    + destruct (IH (record_calls evs1 st)) as [evs2 H2].
      exists (evs1 ++ evs2).
      destruct (mapM (call_item W rc) items (record_calls evs1 st)) as [vs st2|e st2];
        simpl in *; subst st2; apply record_calls_app.
    + by exists evs1.
Qed.

Lemma callDataLoader_trace (dataLoader : DataLoaderConfig) rc (st : State) :
  exists evs, final_state (callDataLoader W dataLoader rc st) = record_calls evs st.
Proof.
  destruct dataLoader as [f|config|items]; simpl.
  - eexists. apply external_trace.
  - apply loadDataByCustomFetcher_trace.
  - unfold bind. destruct (mapM_call_item_trace rc items st) as [evs H].
    exists evs. by destruct (mapM (call_item W rc) items st).
Qed.

(** ** Retrieval *)

(** A cache hit leaves the state as it is. *)
Lemma getData_hit_state cfg id options (st : State) (r : CachedResult) :
  cache st !! lookup_key id options = Some r ->
  snd (getData W cfg id options st) = st.
Proof.
  intros H. unfold getData. rewrite getData_lookup, H.
  destruct (String.eqb (status r) "RESOLVED"); [done|].
  by destruct (value_of r).
Qed.

(** C1: when a cache record exists at the key that getData(id, options)
    looks up (id followed by _ssg when options.ssg is set, id otherwise):
    with status RESOLVED the call resolves with the record itself, the
    object with fields value and status; with status LOADING it resolves
    with the unwrapped value, which for a stored array is Promise.all of the
    array (the results of all members in order, once all are fulfilled) and
    for anything else is the result of awaiting the stored value. No call
    changes the state. *)
Theorem getData_cached cfg id options (st : State) (r : CachedResult) :
  cache st !! lookup_key id options = Some r ->
  (status r = "RESOLVED" ->
     getData W cfg id options st = (Fulfilled (record_object r), st))
  /\ (status r = "LOADING" ->
      (forall items, value_of r = VArr items ->
         getData W cfg id options st = (promise_all items, st))
      /\ (forall items results, value_of r = VArr items ->
            Forall2 (fun v x => await v = Fulfilled x) items results ->
            getData W cfg id options st = (Fulfilled (VArr results), st))
      /\ (isArray (value_of r) = false ->
            getData W cfg id options st = (await (value_of r), st))).
Proof.
  intros H. unfold getData. rewrite getData_lookup, H.
  split; intros Hs; rewrite Hs; simpl; [done|].
  split; [|split].
  - by intros items ->.
  - intros items results -> Hall. by rewrite (promise_all_results _ _ Hall).
  - intros Harr. by destruct (value_of r).
Qed.

(** An own declaration hides the inherited member. *)
Lemma declared_own (cfg : Loaders) (id : string) (dataLoader : DataLoaderConfig) :
  cfg !! id = Some dataLoader -> declared cfg id = Some dataLoader.
Proof. unfold declared. by intros ->. Qed.

(** With no cache record at the looked-up key and nothing under id in the
    loader config, own or inherited, getData resolves to null and calls
    nothing. *)
Lemma getData_undeclared cfg id options (st : State) :
  cache st !! lookup_key id options = None ->
  declared cfg id = None ->
  getData W cfg id options st = (Fulfilled VNull, st).
Proof.
  intros Hc Hl. unfold getData. by rewrite getData_lookup, Hc, Hl.
Qed.

(** The on-demand path: a cache miss with a declared loader resolves the
    declaration afresh. *)
Lemma getData_on_demand cfg id options (st : State) (dataLoader : DataLoaderConfig) :
  cache st !! lookup_key id options = None ->
  cfg !! id = Some dataLoader ->
  getData W cfg id options st =
    match callDataLoader W dataLoader here st with
    | Ok v st' => (await v, st')
    | Throw e st' => (Rejected e, st')
    end.
Proof.
  intros Hc Hl. unfold getData.
  by rewrite getData_lookup, Hc, (declared_own _ _ _ Hl).
Qed.

Lemma getData_on_demand_state cfg id options (st : State) (dataLoader : DataLoaderConfig) :
  cache st !! lookup_key id options = None ->
  cfg !! id = Some dataLoader ->
  snd (getData W cfg id options st) = final_state (callDataLoader W dataLoader here st).
Proof.
  intros Hc Hl. rewrite (getData_on_demand _ _ _ _ _ Hc Hl).
  by destruct (callDataLoader W dataLoader here st).
Qed.

(** C7: while no fetcher is registered, resolving a descriptor-form loader
    fails with the TypeError of calling an undefined fetcher, nothing being
    called; in getData, where the resolution is awaited, the caller gets a
    promise rejected with that error. *)
Theorem descriptor_without_fetcher (config : value) (st : State) :
  dataLoaderFetcher st = None ->
  (forall requestContext,
     callDataLoader W (LoaderDescriptor config) requestContext st
     = Throw not_a_function st)
  /\ (forall cfg id options,
        cache st !! lookup_key id options = None ->
        cfg !! id = Some (LoaderDescriptor config) ->
        getData W cfg id options st = (Rejected not_a_function, st)).
Proof.
  intros Hf.
  assert (forall requestContext,
            callDataLoader W (LoaderDescriptor config) requestContext st
            = Throw not_a_function st) as Hthrow.
  { intros rc. simpl. unfold loadDataByCustomFetcher. by rewrite Hf. }
  split; [done|].
  intros cfg id options Hc Hl.
  by rewrite (getData_on_demand _ _ _ _ _ Hc Hl), Hthrow.
Qed.

(** C5: on a cache miss with a declared loader, getData resolves the
    declaration and writes no cache record, so a second call misses again
    and resolves the declaration once more, from the state the first call
    left; a function-form loader is thereby called twice. *)
Theorem getData_on_demand_twice cfg id options (st : State) (dataLoader : DataLoaderConfig) :
  cache st !! lookup_key id options = None ->
  cfg !! id = Some dataLoader ->
  let first := getData W cfg id options st in
  let second := getData W cfg id options (snd first) in
  cache (snd first) = cache st
  /\ cache (snd second) = cache st
  /\ snd first = final_state (callDataLoader W dataLoader here st)
  /\ snd second = final_state (callDataLoader W dataLoader here (snd first))
  /\ (forall f, dataLoader = LoaderFn f ->
        calls (snd second) = calls st ++ [EvLoader f here; EvLoader f here]).
Proof.
  intros Hc Hl first second.
  assert (snd first = final_state (callDataLoader W dataLoader here st)) as H1
    by apply (getData_on_demand_state _ _ _ _ _ Hc Hl).
  assert (cache (snd first) = cache st) as Hc1.
  { rewrite H1. by destruct (callDataLoader_trace dataLoader here st) as [evs ->]. }
  assert (cache (snd first) !! lookup_key id options = None) as Hc'
    by (by rewrite Hc1).
  assert (snd second = final_state (callDataLoader W dataLoader here (snd first))) as H2
    by apply (getData_on_demand_state _ _ _ _ _ Hc' Hl).
  repeat split; try done.
  - rewrite H2.
    destruct (callDataLoader_trace dataLoader here (snd first)) as [evs ->].
    done.
  - intros f ->. rewrite H2, H1. simpl.
    rewrite !external_trace. simpl. by rewrite <- app_assoc.
Qed.

(** ** Route ids and cache keys *)

Lemma string_length_app (s t : string) :
  String.length (s +:+ t) = String.length s + String.length t.
Proof. induction s as [|a s IH]; simpl; [done|]. by rewrite IH. Qed.

(** The key of the static-generation snapshot of a route is never the
    route id itself. *)
Lemma ssg_key_fresh (id : string) : id <> id +:+ "_ssg".
Proof.
  intros H. apply (f_equal String.length) in H.
  rewrite string_length_app in H. simpl in H. lia.
Qed.

(** Two routes have distinct snapshot keys. *)
Lemma ssg_key_inj (id id' : string) : id +:+ "_ssg" = id' +:+ "_ssg" -> id = id'.
Proof.
  revert id'. induction id as [|a id IH]; intros [|a' id'] H; simpl in H.
  - done.
  - apply (f_equal String.length) in H. simpl in H.
    rewrite string_length_app in H. simpl in H. lia.
  - apply (f_equal String.length) in H. simpl in H.
    rewrite string_length_app in H. simpl in H. lia.
  - injection H as -> H. f_equal. by apply IH.
Qed.

Lemma ssg_key_ends (id key : string) : id +:+ "_ssg" = key -> ends_ssg key = true.
Proof.
  intros <-. induction id as [|a id IH]; [reflexivity|].
  change (String.eqb (String a id +:+ "_ssg") "_ssg" || ends_ssg (id +:+ "_ssg") = true).
  rewrite IH. apply orb_true_r.
Qed.

(** No member of [Object.prototype] is named like a snapshot key. *)
Lemma inherited_ssg (id : string) : inherited (id +:+ "_ssg") = None.
Proof.
  unfold inherited. destruct (bool_decide _) eqn:Hin.
  - apply bool_decide_eq_true in Hin. unfold object_prototype_functions in Hin.
    repeat (apply elem_of_cons in Hin as [Hin|Hin];
            [apply ssg_key_ends in Hin; vm_compute in Hin; discriminate Hin|]).
    by apply elem_of_nil in Hin.
  - destruct (String.eqb _ "__proto__") eqn:Heq; [|done].
    apply String.eqb_eq in Heq. apply ssg_key_ends in Heq.
    vm_compute in Heq. discriminate Heq.
Qed.

Lemma declared_ssg (cfg : Loaders) (id : string) :
  cfg !! (id +:+ "_ssg") = None -> declared cfg (id +:+ "_ssg") = None.
Proof. unfold declared. intros ->. by rewrite inherited_ssg. Qed.

(** ** One seeding step *)

Section Seeding.

Variable cfg : Loaders.
Variable data : gmap string value.
Variable mode : option string.

Abbreviation seed := (seed_id W cfg data mode).

(** The callback of the seeding loop, case by case. *)
Lemma seed_id_cases (id : string) (st : State) :
  seed id st =
    if truthy (property data id) && mode_is mode "SSR"
    then Ok tt (hydrated data mode id st)
    else
      match declared cfg id with
      | Some dataLoader =>
          match callDataLoader W dataLoader here (hydrated data mode id st) with
          | Ok loader st' => Ok tt (set_cache (<[id := loading loader]> (cache st')) st')
          | Throw e st' => Throw e st'
          end
      | None => Ok tt (hydrated data mode id st)
      end.
Proof.
  unfold seed_id, hydrated, bind, cache_set, ret, loading.
  destruct (truthy (property data id)); simpl.
  - destruct (mode_is mode "SSR"); simpl; [done|].
    destruct (declared cfg id); [|done].
    by destruct (callDataLoader W _ _ _).
  - destruct (declared cfg id); [|done].
    by destruct (callDataLoader W _ _ _).
Qed.

(** A seeding step throws only when resolving the loader of its id throws,
    and stops in the state of that throw. *)
Lemma seed_id_throw (id : string) (st st' : State) (e : value) :
  seed id st = Throw e st' ->
  exists dataLoader,
    declared cfg id = Some dataLoader
    /\ callDataLoader W dataLoader here (hydrated data mode id st) = Throw e st'.
Proof.
  rewrite seed_id_cases.
  destruct (truthy (property data id) && mode_is mode "SSR"); [done|].
  destruct (declared cfg id) as [d|]; [|done].
  destruct (callDataLoader W d here (hydrated data mode id st)) eqn:Hc; [done|].
  intros [= -> ->]. by exists d.
Qed.

(** What a step leaves behind: the hydration write and calls appended to
    the trace, plus the LOADING record when the loader was resolved. *)
Lemma seed_id_final (id : string) (st : State) :
  exists evs,
    final_state (seed id st) = record_calls evs (hydrated data mode id st)
    \/ (exists loader,
          seed id st =
            Ok tt (set_cache (<[id := loading loader]> (cache (hydrated data mode id st)))
                     (record_calls evs (hydrated data mode id st)))
          /\ is_Some (declared cfg id)
          /\ (truthy (property data id) && mode_is mode "SSR") = false).
Proof.
  rewrite seed_id_cases.
  destruct (truthy (property data id) && mode_is mode "SSR") eqn:Hskip.
  { exists []. left. simpl. by rewrite record_calls_nil. }
  destruct (declared cfg id) as [d|] eqn:Hd.
  2:{ exists []. left. simpl. by rewrite record_calls_nil. }
  destruct (callDataLoader_trace d here (hydrated data mode id st)) as [evs Hevs].
  exists evs.
  destruct (callDataLoader W d here (hydrated data mode id st)) as [loader st'|e st'];
    simpl in Hevs; subst st'.
  - right. exists loader. by eauto.
  - by left.
Qed.

(** The trace only grows. *)
Lemma seed_id_calls (id : string) (st : State) :
  exists evs, calls (final_state (seed id st)) = calls st ++ evs.
Proof.
  assert (calls (hydrated data mode id st) = calls st) as Hh.
  { unfold hydrated. by destruct (truthy _). }
  destruct (seed_id_final id st) as [evs [H|[loader [H _]]]]; rewrite H; exists evs;
    simpl; by rewrite Hh.
Qed.

(** [forEach] over a concatenation. *)
Lemma forEach_app {A} (f : A -> M RequestContext unit) (l1 l2 : list A) (st : State) :
  forEach f (l1 ++ l2) st =
    match forEach f l1 st with
    | Ok _ st1 => forEach f l2 st1
    | Throw e st1 => Throw e st1
    end.
Proof.
  revert st. induction l1 as [|a l1 IH]; intros st; simpl; [done|].
  unfold bind. destruct (f a st); [apply IH|done].
Qed.

End Seeding.

(** ** init *)

Lemma init_after_plugins cfg options context (st0 : State) (u : value) :
  fst (run_plugins W options st0) = Fulfilled u ->
  init W cfg options context st0 =
    (Fulfilled VUndefined, seed_and_install W cfg context (before_seeding W options st0)).
Proof.
  intros H. unfold init. destruct (run_plugins W options st0) as [p st'].
  simpl in H. by subst p.
Qed.

Lemma init_done cfg options context (st0 st : State) (u : value) :
  init W cfg options context st0 = (Fulfilled u, st) ->
  st = seed_and_install W cfg context (before_seeding W options st0).
Proof.
  unfold init. destruct (run_plugins W options st0) as [p st'] eqn:Hp.
  destruct p; intros [= <- <-]; done.
Qed.

Lemma seed_and_install_handle cfg context (st : State) :
  ICE_DATA_LOADER (seed_and_install W cfg context st) = Some cfg.
Proof. reflexivity. Qed.

Lemma seed_and_install_cache cfg context (st : State) :
  cache (seed_and_install W cfg context st)
  = cache (final_state (loadInitialDataInClient W cfg context st)).
Proof.
  unfold seed_and_install. by destruct (loadInitialDataInClient W cfg context st).
Qed.

Lemma seed_and_install_calls cfg context (st : State) :
  calls (seed_and_install W cfg context st)
  = calls (final_state (loadInitialDataInClient W cfg context st)).
Proof.
  unfold seed_and_install. by destruct (loadInitialDataInClient W cfg context st).
Qed.

(** Starting the plugins appends plugin calls to the trace and nothing
    else. *)
Lemma run_plugins_trace options (st : State) :
  exists evs,
    snd (run_plugins W options st) = record_calls evs st
    /\ Forall (fun ev => is_data_call ev = false) evs.
Proof.
  unfold run_plugins. destruct (runtimeModules options) as [modules|].
  2:{ exists []. simpl. by rewrite record_calls_nil. }
  assert (exists evs,
    final_state (mapM (run_plugin W (runtimeApi options)) modules st) = record_calls evs st
    /\ Forall (fun ev => is_data_call ev = false) evs) as [evs [H1 H2]].
  { clear. revert st. induction modules as [|m modules IH]; intros st; simpl.
    - exists []. by rewrite record_calls_nil.
    - unfold bind, run_plugin at 1.
      pose proof (external_trace (EvPlugin (plugin_of m) (runtimeApi options))
                    (plugin_fn W (plugin_of m) (runtimeApi options)) st) as H1.
      destruct (external _ _ st) as [v st1|e st1]; simpl in H1; subst st1.
      + destruct (IH (record_calls [EvPlugin (plugin_of m) (runtimeApi options)] st))
          as [evs [H2 Hall]].
        exists (EvPlugin (plugin_of m) (runtimeApi options) :: evs). split.
        * destruct (mapM _ modules _) as [vs st2|e st2]; simpl in *; subst st2;
            apply record_calls_app.
        * by constructor.
      + exists [EvPlugin (plugin_of m) (runtimeApi options)]. split; [done|].
        by repeat constructor. }
  exists evs. split; [|done].
  by destruct (mapM _ modules st).
Qed.

Lemma no_data_call_no_loader_call (f : fn_id) (evs : list (event RequestContext)) :
  Forall (fun ev => is_data_call ev = false) evs -> loader_calls f evs = 0.
Proof.
  unfold loader_calls. induction 1 as [|ev evs Hev _ IH]; simpl; [done|].
  by destruct ev.
Qed.

(** When seeding starts the cache is the one [init] was called with, and
    the trace has gained plugin calls only. *)
Lemma before_seeding_cache options (st : State) :
  cache (before_seeding W options st) = cache st.
Proof.
  unfold before_seeding, register_fetcher.
  destruct (run_plugins_trace options st) as [evs [-> _]].
  by destruct (fetcher options).
Qed.

Lemma before_seeding_loader_calls options (st : State) (f : fn_id) :
  loader_calls f (calls (before_seeding W options st)) = loader_calls f (calls st).
Proof.
  unfold before_seeding, register_fetcher.
  destruct (run_plugins_trace options st) as [evs [-> Hevs]].
  assert (loader_calls f (calls (record_calls evs st)) = loader_calls f (calls st)) as <-.
  { simpl. rewrite loader_calls_app, (no_data_call_no_loader_call _ _ Hevs). lia. }
  by destruct (fetcher options).
Qed.

(** C8: once the plugins have settled, an error thrown while seeding is
    caught and given to console.error, and init goes on to install the
    getData handle and is fulfilled: the handle answers calls with the
    loader config init was given. *)
Theorem init_survives_seeding_error cfg options context (st0 st' : State)
    (u error : value) :
  fst (run_plugins W options st0) = Fulfilled u ->
  loadInitialDataInClient W cfg context (before_seeding W options st0) = Throw error st' ->
  let st := snd (init W cfg options context st0) in
  init W cfg options context st0
    = (Fulfilled VUndefined, set_handle (Some cfg) (log_error error st'))
  /\ console_error st = console_error st' ++ [error]
  /\ ICE_DATA_LOADER st = Some cfg
  /\ (forall id o, window_getData W id o st = Some (getData W cfg id o st)).
Proof.
  intros Hp Hthrow st. subst st.
  rewrite (init_after_plugins _ _ _ _ _ Hp).
  unfold seed_and_install. rewrite Hthrow. simpl. done.
Qed.

(** C10: when, during seeding, resolving the loader of an id throws, the
    loop stops there: seeding ends in the state of the throw whatever ids
    come after, so that nothing is written for them (the cache is the one
    left by the ids before, with at most the hydration record of the id
    itself), and init still installs the handle. *)
Theorem seeding_stops_at_throw cfg options context (st0 st1 st2 : State)
    (u error : value) (pre post : list string) (id : string)
    (dataLoader : DataLoaderConfig) :
  fst (run_plugins W options st0) = Fulfilled u ->
  seeded_ids context = pre ++ id :: post ->
  let data := default ∅ (context ≫= routesData) in
  let mode := context ≫= renderMode in
  forEach (seed_id W cfg data mode) pre (before_seeding W options st0) = Ok tt st1 ->
  truthy (property data id) && mode_is mode "SSR" = false ->
  cfg !! id = Some dataLoader ->
  callDataLoader W dataLoader here (hydrated data mode id st1) = Throw error st2 ->
  loadInitialDataInClient W cfg context (before_seeding W options st0) = Throw error st2
  /\ cache st2 = cache (hydrated data mode id st1)
  /\ init W cfg options context st0
       = (Fulfilled VUndefined, set_handle (Some cfg) (log_error error st2))
  /\ cache (snd (init W cfg options context st0)) = cache (hydrated data mode id st1)
  /\ ICE_DATA_LOADER (snd (init W cfg options context st0)) = Some cfg.
Proof.
  intros Hp Hids data mode Hpre Hskip Hd Hthrow.
  assert (loadInitialDataInClient W cfg context (before_seeding W options st0)
          = Throw error st2) as Hseed.
  { unfold loadInitialDataInClient. rewrite Hids, forEach_app.
    fold data mode. rewrite Hpre. simpl. unfold bind.
    by rewrite seed_id_cases, Hskip, (declared_own _ _ _ Hd), Hthrow. }
  assert (cache st2 = cache (hydrated data mode id st1)) as Hcache.
  { destruct (callDataLoader_trace dataLoader here (hydrated data mode id st1))
      as [evs Hevs].
    rewrite Hthrow in Hevs. simpl in Hevs. by subst st2. }
  rewrite (init_after_plugins _ _ _ _ _ Hp).
  unfold seed_and_install. rewrite Hseed. simpl. done.
Qed.

(** ** Hydration data and loaders *)

Lemma property_lookup (data : gmap string value) (id : string) (v : value) :
  data !! id = Some v -> property data id = v.
Proof. unfold property. by intros ->. Qed.

(** C9, as the code has it: outside SSR and SSG, a seeding step for an id
    with truthy hydration data and a declared loader first writes the
    RESOLVED record under the id and resolves the loader in that state; when
    the resolution returns, the LOADING record is written over the same key
    and the hydration data is gone from the cache; when the resolution
    throws, the step throws and the RESOLVED record stays. *)
Theorem csr_seeding_overwrites_hydration cfg (data : gmap string value)
    (mode : option string) (id : string) (v : value)
    (dataLoader : DataLoaderConfig) (st : State) :
  data !! id = Some v ->
  truthy v = true ->
  cfg !! id = Some dataLoader ->
  mode_is mode "SSR" = false ->
  mode_is mode "SSG" = false ->
  let st1 := hydrated data mode id st in
  cache st1 = <[id := resolved v]> (cache st)
  /\ (forall loader st2,
        callDataLoader W dataLoader here st1 = Ok loader st2 ->
        seed_id W cfg data mode id st
          = Ok tt (set_cache (<[id := loading loader]> (<[id := resolved v]> (cache st))) st2)
        /\ <[id := loading loader]> (<[id := resolved v]> (cache st)) !! id
           = Some (loading loader))
  /\ (forall e st2,
        callDataLoader W dataLoader here st1 = Throw e st2 ->
        seed_id W cfg data mode id st = Throw e st2
        /\ cache st2 !! id = Some (resolved v)).
Proof.
  intros Hv Ht Hd Hssr Hssg st1.
  assert (cache st1 = <[id := resolved v]> (cache st)) as Hc1.
  { subst st1. unfold hydrated. by rewrite (property_lookup _ _ _ Hv), Ht, Hssg. }
  assert (forall st2, (exists evs, st2 = record_calls evs st1) ->
                      cache st2 = <[id := resolved v]> (cache st)) as Hframe.
  { intros st2 [evs ->]. by rewrite <- Hc1. }
  split; [done|]. split.
  - intros loader st2 Hcall. split; [|apply lookup_insert_eq].
    rewrite seed_id_cases, (property_lookup _ _ _ Hv), Ht, Hssr,
      (declared_own _ _ _ Hd). simpl.
    fold st1. rewrite Hcall. do 3 f_equal. apply Hframe.
    destruct (callDataLoader_trace dataLoader here st1) as [evs Hevs].
    rewrite Hcall in Hevs. by exists evs.
  - intros e st2 Hcall. split.
    + rewrite seed_id_cases, (property_lookup _ _ _ Hv), Ht, Hssr,
      (declared_own _ _ _ Hd). simpl.
      fold st1. by rewrite Hcall.
    + rewrite Hframe; [apply lookup_insert_eq|].
      destruct (callDataLoader_trace dataLoader here st1) as [evs Hevs].
      rewrite Hcall in Hevs. by exists evs.
Qed.

(** ** The static-generation snapshot *)

Lemma getData_resolved cfg id options (st : State) (r : CachedResult) :
  cache st !! lookup_key id options = Some r ->
  status r = "RESOLVED" ->
  getData W cfg id options st = (Fulfilled (record_object r), st).
Proof.
  intros H Hs. unfold getData. by rewrite getData_lookup, H, Hs.
Qed.

Lemma hydrated_calls (data : gmap string value) mode id (st : State) :
  calls (hydrated data mode id st) = calls st.
Proof. unfold hydrated. by destruct (truthy _). Qed.

Section Snapshot.

Variable cfg : Loaders.
Variable data : gmap string value.
Variable mode : option string.
Hypothesis mode_ssg : mode_is mode "SSG" = true.

Variable id : string.
Variable v : value.
Hypothesis data_id : data !! id = Some v.

(** A step keeps the snapshot of [id] unless its own id is the snapshot key
    and has a loader. *)
Lemma seed_id_keeps_snapshot (id' : string) (st : State) :
  (id' = id +:+ "_ssg" -> cfg !! id' = None) ->
  cache st !! (id +:+ "_ssg") = Some (resolved v) ->
  cache (final_state (seed_id W cfg data mode id' st)) !! (id +:+ "_ssg")
  = Some (resolved v).
Proof.
  intros Hfree Hst.
  assert (cache (hydrated data mode id' st) !! (id +:+ "_ssg") = Some (resolved v)) as Hh.
  { unfold hydrated. destruct (truthy (property data id')); [|done].
    rewrite mode_ssg. simpl.
    destruct (decide (id' = id)) as [->|Hne].
    - by rewrite (property_lookup _ _ _ data_id), lookup_insert_eq.
    - rewrite lookup_insert_ne; [done|]. intros H. by apply ssg_key_inj in H. }
  destruct (seed_id_final cfg data mode id' st) as [evs [H|[loader [H [Hsome _]]]]];
    rewrite H; simpl; [done|].
  rewrite lookup_insert_ne; [done|].
  intros ->. rewrite declared_ssg in Hsome; [|by apply Hfree]. by destruct Hsome.
Qed.

Lemma forEach_keeps_snapshot (ids : list string) (st : State) :
  (forall id', id' ∈ ids -> id' = id +:+ "_ssg" -> cfg !! id' = None) ->
  cache st !! (id +:+ "_ssg") = Some (resolved v) ->
  cache (final_state (forEach (seed_id W cfg data mode) ids st)) !! (id +:+ "_ssg")
  = Some (resolved v).
Proof.
  revert st. induction ids as [|id' ids IH]; intros st Hfree Hst; simpl; [done|].
  unfold bind.
  pose proof (seed_id_keeps_snapshot id' st) as Hstep.
  destruct (seed_id W cfg data mode id' st) as [[] st1|e st1]; simpl in Hstep.
  - apply IH.
    + intros id'' Hin. apply Hfree. by right.
    + apply Hstep; [|done]. apply Hfree. by left.
  - apply Hstep; [|done]. apply Hfree. by left.
Qed.

(** The step of [id] itself writes the snapshot. *)
Lemma seed_id_writes_snapshot (st : State) :
  truthy v = true ->
  cache (final_state (seed_id W cfg data mode id st)) !! (id +:+ "_ssg")
  = Some (resolved v).
Proof.
  intros Ht.
  assert (cache (hydrated data mode id st) !! (id +:+ "_ssg") = Some (resolved v)) as Hh.
  { unfold hydrated.
    rewrite (property_lookup _ _ _ data_id), Ht, mode_ssg. simpl.
    apply lookup_insert_eq. }
  destruct (seed_id_final cfg data mode id st) as [evs [H|[loader [H _]]]];
    rewrite H; simpl; [done|].
  rewrite lookup_insert_ne; [done|]. apply ssg_key_fresh.
Qed.

End Snapshot.

(** C2, as the code has it: in SSG mode, for an id of the seeded list
    (_app followed by matchedIds) whose routesData entry is truthy, if
    seeding gets as far as that id (the ids before it are seeded without a
    throw) and no id after it is named id_ssg and has a loader, then after
    init getData(id, {ssg: true}) resolves to the RESOLVED record holding
    the hydration data, and the call leaves the state, trace included, as it
    is: it invokes nothing. *)
Theorem ssg_snapshot_served cfg options context (st0 st st1 : State)
    (pre post : list string) (id : string) (v : value) :
  init W cfg options context st0 = (Fulfilled VUndefined, st) ->
  context ≫= renderMode = Some "SSG" ->
  seeded_ids context = pre ++ id :: post ->
  default ∅ (context ≫= routesData) !! id = Some v ->
  truthy v = true ->
  forEach (seed_id W cfg (default ∅ (context ≫= routesData)) (context ≫= renderMode))
          pre (before_seeding W options st0) = Ok tt st1 ->
  (forall id', id' ∈ post -> id' = id +:+ "_ssg" -> cfg !! id' = None) ->
  getData W cfg id ssg_true st
  = (Fulfilled (VObj [("value", v); ("status", VStr "RESOLVED")]), st).
Proof.
  intros Hinit Hmode Hids Hv Ht Hpre Hfree.
  apply init_done in Hinit.
  assert (cache st !! (id +:+ "_ssg") = Some (resolved v)) as Hc.
  { rewrite Hinit, seed_and_install_cache. unfold loadInitialDataInClient.
    rewrite Hids, forEach_app, Hpre. simpl. unfold bind.
    assert (mode_is (context ≫= renderMode) "SSG" = true) as Hssg
      by (by rewrite Hmode).
    pose proof (seed_id_writes_snapshot cfg _ _ Hssg id v Hv st1 Ht) as Hstep.
    destruct (seed_id W cfg _ _ id st1) as [[] st2|e st2]; simpl in Hstep; [|done].
    by apply forEach_keeps_snapshot. }
  by rewrite (getData_resolved cfg id ssg_true st (resolved v) Hc).
Qed.

(** ** The scenario of the specification *)

(** Seeding in the scenario: the hydration record of _app is written and,
    SSR or not, the loader of home, which has no hydration data, is called
    once. *)
Lemma scenario_seeding (st : State) :
  let st' := final_state (loadInitialDataInClient W Example.home_loaders
                            Example.ssr_context st) in
  cache st' !! "_app" = Some (resolved Example.user_x)
  /\ calls st' = calls st ++ [EvLoader "fetchHomeData" here].
Proof.
  unfold loadInitialDataInClient, Example.ssr_context, Example.home_loaders. simpl.
  unfold bind. rewrite seed_id_cases.
  rewrite (property_lookup _ "_app" Example.user_x) by apply lookup_singleton_eq.
  simpl. rewrite seed_id_cases.
  assert (property ({[ "_app" := Example.user_x ]} : gmap string value) "home"
          = VUndefined) as ->.
  { unfold property. by rewrite lookup_singleton_ne. }
  simpl.
  rewrite (declared_own _ "home" (LoaderFn "fetchHomeData"))
    by apply lookup_singleton_eq.
  assert (hydrated ({[ "_app" := Example.user_x ]} : gmap string value)
            (Some "SSR") "_app" st
          = set_cache (<["_app" := resolved Example.user_x]> (cache st)) st) as ->.
  { unfold hydrated.
    by rewrite (property_lookup _ "_app" Example.user_x) by apply lookup_singleton_eq. }
  assert (forall s : State,
            hydrated ({[ "_app" := Example.user_x ]} : gmap string value)
              (Some "SSR") "home" s = s) as ->.
  { intros s. unfold hydrated, property. by rewrite lookup_singleton_ne. }
  simpl. unfold external. simpl.
  destruct (loader_fn W "fetchHomeData" here (calls st)); simpl.
  - split; [|done]. rewrite lookup_insert_ne by done. apply lookup_insert_eq.
  - split; [|done]. apply lookup_insert_eq.
Qed.

(** C3, as the code has it: in the scenario matchedIds = ['home'],
    routesData = { _app: {user:'x'} }, renderMode = 'SSR', loader config
    { home: fetchHomeData }, once init is done getData('_app') resolves to
    {value: {user:'x'}, status: 'RESOLVED'} and invokes nothing, while
    fetchHomeData has been invoked exactly once, by the seeding of home,
    which has no hydration data. *)
Theorem ssr_scenario options (st : State) :
  init W Example.home_loaders options Example.ssr_context fresh
    = (Fulfilled VUndefined, st) ->
  getData W Example.home_loaders "_app" None st
    = (Fulfilled (VObj [("value", VObj [("user", VStr "x")]);
                        ("status", VStr "RESOLVED")]), st)
  /\ loader_calls "fetchHomeData" (calls st) = 1
  /\ calls st = calls (before_seeding W options fresh)
                ++ [EvLoader "fetchHomeData" here].
Proof.
  intros Hinit. apply init_done in Hinit.
  destruct (scenario_seeding (before_seeding W options fresh)) as [Hc Ht].
  rewrite <- seed_and_install_cache, <- Hinit in Hc.
  rewrite <- seed_and_install_calls, <- Hinit in Ht.
  split; [|split; [|done]].
  - by rewrite (getData_resolved _ "_app" None st (resolved Example.user_x) Hc).
  - rewrite Ht, loader_calls_app, before_seeding_loader_calls. reflexivity.
Qed.

(** ** Counting loader calls *)

Lemma loader_calls_record (f : fn_id) (evs : list (event RequestContext)) (st : State) :
  loader_calls f (calls (record_calls evs st))
  = loader_calls f (calls st) + loader_calls f evs.
Proof. simpl. apply loader_calls_app. Qed.

Lemma loader_calls_one (f g : fn_id) (rc : RequestContext) :
  loader_calls f [EvLoader g rc] = if String.eqb f g then 1 else 0.
Proof. unfold loader_calls. simpl. by destruct (String.eqb f g). Qed.

Lemma call_item_calls_le (f : fn_id) rc (item : DataLoaderItem) (st : State) :
  loader_calls f (calls (final_state (call_item W rc item st)))
  <= loader_calls f (calls st) + item_refs f item.
Proof.
  destruct item as [g|config]; simpl.
  - rewrite external_trace, loader_calls_record, loader_calls_one. lia.
  - unfold loadDataByCustomFetcher. destruct (dataLoaderFetcher st) as [g|]; simpl.
    + rewrite external_trace, loader_calls_record. unfold loader_calls. simpl. lia.
    + lia.
Qed.

Lemma mapM_call_item_calls_le (f : fn_id) rc (items : list DataLoaderItem) (st : State) :
  loader_calls f (calls (final_state (mapM (call_item W rc) items st)))
  <= loader_calls f (calls st) + sum_list (map (item_refs f) items).
Proof.
  revert st. induction items as [|item items IH]; intros st; simpl; [lia|].
  unfold bind. pose proof (call_item_calls_le f rc item st) as H1.
  destruct (call_item W rc item st) as [v st1|e st1]; simpl in H1; [|simpl; lia].
  specialize (IH st1).
  destruct (mapM (call_item W rc) items st1) as [vs st2|e st2]; simpl in *; lia.
Qed.

Lemma callDataLoader_calls_le (f : fn_id) (dataLoader : DataLoaderConfig) rc (st : State) :
  loader_calls f (calls (final_state (callDataLoader W dataLoader rc st)))
  <= loader_calls f (calls st) + refs f (Some dataLoader).
Proof.
  destruct dataLoader as [g|config|items]; simpl.
  - rewrite external_trace, loader_calls_record, loader_calls_one. lia.
  - pose proof (call_item_calls_le f rc (ItemDescriptor config) st) as H.
    simpl in H. lia.
  - unfold bind. pose proof (mapM_call_item_calls_le f rc items st) as H.
    by destruct (mapM (call_item W rc) items st).
Qed.

Section Counting.

Variable cfg : Loaders.
Variable data : gmap string value.
Variable mode : option string.
Variable f : fn_id.

Abbreviation seed_step := (seed_id W cfg data mode).

Lemma seed_id_calls_le (id : string) (st : State) :
  loader_calls f (calls (final_state (seed_step id st)))
  <= loader_calls f (calls st) + refs f (declared cfg id).
Proof.
  rewrite seed_id_cases.
  destruct (truthy (property data id) && mode_is mode "SSR").
  { simpl. rewrite hydrated_calls. lia. }
  destruct (declared cfg id) as [d|].
  2:{ simpl. rewrite hydrated_calls. lia. }
  pose proof (callDataLoader_calls_le f d here (hydrated data mode id st)) as H.
  rewrite hydrated_calls in H.
  by destruct (callDataLoader W d here (hydrated data mode id st)).
Qed.

Lemma seed_id_calls_mono (id : string) (st : State) :
  loader_calls f (calls st) <= loader_calls f (calls (final_state (seed_step id st))).
Proof.
  destruct (seed_id_calls cfg data mode id st) as [evs ->].
  rewrite loader_calls_app. lia.
Qed.

Lemma forEach_calls_le (ids : list string) (st : State) :
  loader_calls f (calls (final_state (forEach seed_step ids st)))
  <= loader_calls f (calls st) + declared_calls f cfg ids.
Proof.
  revert st. induction ids as [|id ids IH]; intros st; simpl; [lia|].
  unfold bind. pose proof (seed_id_calls_le id st) as H1.
  unfold declared_calls in *. simpl.
  destruct (seed_step id st) as [[] st1|e st1]; simpl in H1; [|simpl; lia].
  specialize (IH st1). lia.
Qed.

Lemma forEach_calls_mono (ids : list string) (st : State) :
  loader_calls f (calls st) <= loader_calls f (calls (final_state (forEach seed_step ids st))).
Proof.
  revert st. induction ids as [|id ids IH]; intros st; simpl; [lia|].
  unfold bind. pose proof (seed_id_calls_mono id st) as H1.
  destruct (seed_step id st) as [[] st1|e st1]; simpl in H1; [|simpl; lia].
  specialize (IH st1). lia.
Qed.

(** The hydration write is a RESOLVED record: it makes no key LOADING. *)
Lemma hydrated_loading (id key : string) (st : State) :
  loading_at (cache (hydrated data mode id st)) key -> loading_at (cache st) key.
Proof.
  unfold hydrated. destruct (truthy (property data id)); [|done].
  simpl. intros [r [Hr Hs]].
  destruct (decide ((if mode_is mode "SSG" then id +:+ "_ssg" else id) = key))
    as [Heq|Hne].
  - rewrite Heq, lookup_insert_eq in Hr. injection Hr as <-. done.
  - rewrite lookup_insert_ne in Hr by done. by exists r.
Qed.

Variable id : string.
Hypothesis loader_id : cfg !! id = Some (LoaderFn f).

(** A step that leaves [id] LOADING found it so or called [f]. *)
Lemma seed_id_loading (id' : string) (st : State) :
  loading_at (cache (final_state (seed_step id' st))) id ->
  loading_at (cache st) id
  \/ loader_calls f (calls (final_state (seed_step id' st)))
     = loader_calls f (calls st) + 1.
Proof.
  rewrite seed_id_cases.
  destruct (truthy (property data id') && mode_is mode "SSR").
  { simpl. intros H. left. by apply hydrated_loading in H. }
  destruct (declared cfg id') as [d|] eqn:Hd.
  2:{ simpl. intros H. left. by apply hydrated_loading in H. }
  destruct (callDataLoader_trace d here (hydrated data mode id' st)) as [evs Hevs].
  destruct (callDataLoader W d here (hydrated data mode id' st)) as [loader st'|e st']
    eqn:Hcall; simpl in Hevs; subst st'.
  - simpl. destruct (decide (id' = id)) as [->|Hne].
    + intros _. right. rewrite (declared_own _ _ _ loader_id) in Hd. injection Hd as <-.
      simpl in Hcall. pose proof (external_trace (EvLoader f here)
        (loader_fn W f here) (hydrated data mode id st)) as Ht.
      rewrite Hcall in Ht. simpl in Ht.
      rewrite <- (hydrated_calls data mode id st).
      apply (f_equal calls) in Ht. simpl in Ht.
      apply app_inv_head in Ht. subst evs.
      rewrite loader_calls_app, loader_calls_one, String.eqb_refl. done.
    + intros [r [Hr Hs]]. rewrite lookup_insert_ne in Hr by done.
      left. apply (hydrated_loading id'). by exists r.
  - simpl. intros H. left. by apply hydrated_loading in H.
Qed.

Lemma forEach_loading (ids : list string) (st : State) :
  loading_at (cache (final_state (forEach seed_step ids st))) id ->
  loading_at (cache st) id
  \/ loader_calls f (calls st) + 1
     <= loader_calls f (calls (final_state (forEach seed_step ids st))).
Proof.
  revert st. induction ids as [|id' ids IH]; intros st; simpl; [by left|].
  unfold bind. pose proof (seed_id_loading id' st) as H1.
  pose proof (seed_id_calls_mono id' st) as Hm.
  destruct (seed_step id' st) as [[] st1|e st1]; simpl in H1, Hm.
  - intros H. destruct (IH st1 H) as [Hl|Hc].
    + destruct (H1 Hl) as [?|Hone]; [by left|].
      right. pose proof (forEach_calls_mono ids st1). lia.
    + right. lia.
  - simpl. intros H. destruct (H1 H) as [?|Hone]; [by left|right; lia].
Qed.

End Counting.

(** A function declared by one id that occurs once among the seeded ids,
    and by no other of them, is mentioned once in all. *)
Lemma declared_calls_none (cfg : Loaders) (f : fn_id) (ids : list string) :
  (forall id', id' ∈ ids -> refs f (declared cfg id') = 0) ->
  declared_calls f cfg ids = 0.
Proof.
  unfold declared_calls. induction ids as [|id' ids IH]; intros H; simpl; [done|].
  rewrite (H id') by (by left). rewrite IH; [done|].
  intros id'' Hin. apply H. by right.
Qed.

Lemma declared_calls_once (cfg : Loaders) (f : fn_id) (id : string) (ids : list string) :
  cfg !! id = Some (LoaderFn f) ->
  NoDup ids ->
  id ∈ ids ->
  (forall id', id' ∈ ids -> id' <> id -> refs f (declared cfg id') = 0) ->
  declared_calls f cfg ids = 1.
Proof.
  intros Hf Hnd. induction Hnd as [|id' ids Hnotin Hnd IH]; intros Hin Hother.
  - by apply elem_of_nil in Hin.
  - change (declared_calls f cfg (id' :: ids))
      with (refs f (declared cfg id') + declared_calls f cfg ids).
    apply elem_of_cons in Hin as [<-|Hin].
    + rewrite (declared_own _ _ _ Hf). simpl. rewrite String.eqb_refl.
      rewrite declared_calls_none; [done|].
      intros id'' Hin'. apply Hother; [by right|]. by intros ->.
    + rewrite Hother; [|by left|by intros ->].
      simpl. apply IH; [done|].
      intros id'' Hin' Hne. apply Hother; [by right|done].
Qed.

(** ** Retrieval of a record that is still loading *)

Lemma getData_loading cfg id options (st : State) (r : CachedResult) :
  cache st !! lookup_key id options = Some r ->
  status r = "LOADING" ->
  getData W cfg id options st = (unwrapped (value_of r), st).
Proof.
  intros H Hs. unfold getData. rewrite getData_lookup, H, Hs. simpl.
  by destruct (value_of r).
Qed.

Lemma getData_many_loading cfg id (st : State) (r : CachedResult) (n : nat) :
  cache st !! id = Some r ->
  status r = "LOADING" ->
  getData_many W cfg (replicate n (id, None)) st
  = (replicate n (unwrapped (value_of r)), st).
Proof.
  intros H Hs. induction n as [|n IH]; simpl; [done|].
  rewrite (getData_loading cfg id None st r H Hs). by rewrite IH.
Qed.

(** After [init] on a freshly loaded module, a LOADING record of a
    function-form loader means the function was called while seeding, and
    it was called no more often than the seeded declarations say. *)
Lemma init_loader_calls cfg options context (st : State) (id : string) (f : fn_id) :
  init W cfg options context fresh = (Fulfilled VUndefined, st) ->
  cfg !! id = Some (LoaderFn f) ->
  loading_at (cache st) id ->
  1 <= loader_calls f (calls st)
  /\ loader_calls f (calls st) <= declared_calls f cfg (seeded_ids context).
Proof.
  intros Hinit Hf Hl. apply init_done in Hinit.
  rewrite Hinit, seed_and_install_cache in Hl.
  rewrite Hinit, seed_and_install_calls.
  unfold loadInitialDataInClient in *.
  set (data := default ∅ (context ≫= routesData)) in *.
  set (mode := context ≫= renderMode) in *.
  set (sb := before_seeding W options fresh) in *.
  assert (loader_calls f (calls sb) = 0) as H0.
  { subst sb. by rewrite before_seeding_loader_calls. }
  split.
  - destruct (forEach_loading cfg data mode f id Hf _ _ Hl) as [[r [Hr _]]|Hc]; [|lia].
    subst sb. by rewrite before_seeding_cache in Hr.
  - pose proof (forEach_calls_le cfg data mode f (seeded_ids context) sb). lia.
Qed.

(** C4, as the code has it: when after init the cache holds a LOADING
    record under id, any number of getData(id) calls leave the state, trace
    included, as it is, and each resolves to what awaiting the stored value
    gives; the loader calls are those made while seeding, so that a
    function-form loader has been called exactly once in all when the
    declarations of the seeded ids (_app followed by matchedIds, with
    repetitions) mention it once. *)
Theorem loading_record_shared cfg options context (st : State) (id : string)
    (r : CachedResult) (n : nat) :
  init W cfg options context fresh = (Fulfilled VUndefined, st) ->
  cache st !! id = Some r ->
  status r = "LOADING" ->
  let run := getData_many W cfg (replicate n (id, None)) st in
  snd run = st
  /\ fst run = replicate n (unwrapped (value_of r))
  /\ (forall f, cfg !! id = Some (LoaderFn f) ->
        declared_calls f cfg (seeded_ids context) = 1 ->
        loader_calls f (calls (snd run)) = 1).
Proof.
  intros Hinit Hr Hs run. subst run.
  rewrite (getData_many_loading cfg id st r n Hr Hs). simpl.
  split; [done|]. split; [done|].
  intros f Hf Hone.
  destruct (init_loader_calls cfg options context st id f Hinit Hf) as [H1 H2];
    [by exists r|lia].
Qed.

(** * Further properties of the module *)

(** ** Batch-form loaders *)

Lemma mapM_app {A B} (f : A -> M RequestContext B) (l1 l2 : list A) (st : State) :
  mapM f (l1 ++ l2) st =
    match mapM f l1 st with
    | Ok bs1 st1 =>
        match mapM f l2 st1 with
        | Ok bs2 st2 => Ok (bs1 ++ bs2) st2
        | Throw e st2 => Throw e st2
        end
    | Throw e st1 => Throw e st1
    end.
Proof.
  revert st. induction l1 as [|a l1 IH]; intros st; simpl.
  - unfold ret. by destruct (mapM f l2 st).
  - unfold bind. destruct (f a st) as [b st1|e st1]; [|done].
    rewrite IH. destruct (mapM f l1 st1) as [bs1 st2|e st2]; simpl; [|done].
    unfold ret. by destruct (mapM f l2 st2).
Qed.

Lemma call_item_events rc (item : DataLoaderItem) (st : State) :
  final_state (call_item W rc item st)
  = record_calls (item_events (dataLoaderFetcher st) rc item) st.
Proof.
  destruct item as [f|config]; simpl.
  - apply external_trace.
  - unfold loadDataByCustomFetcher. destruct (dataLoaderFetcher st) as [g|].
    + apply external_trace.
    + simpl. by rewrite record_calls_nil.
Qed.

Lemma mapM_call_item_events rc (items : list DataLoaderItem) (st st' : State)
    (returned : list value) :
  mapM (call_item W rc) items st = Ok returned st' ->
  st' = record_calls (flat_map (item_events (dataLoaderFetcher st) rc) items) st
  /\ length returned = length items.
Proof.
  revert st returned. induction items as [|item items IH]; intros st returned; simpl.
  - intros [= <- <-]. by rewrite record_calls_nil.
  - unfold bind. pose proof (call_item_events rc item st) as H1.
    destruct (call_item W rc item st) as [v st1|e st1]; [|done].
    simpl in H1. subst st1.
    destruct (mapM (call_item W rc) items _) as [vs st2|e st2] eqn:Hrest; [|done].
    intros [= <- <-]. destruct (IH _ _ Hrest) as [-> Hlen]. simpl in *.
    split; [apply record_calls_app|by rewrite Hlen].
Qed.

(** X1: a batch-form declaration whose resolution returns has called its
    items one after the other in the order of the declaration, functions
    with the request context and descriptors through the registered fetcher,
    and nothing else; what it returns is a promise, Promise.all of one
    returned value per item. *)
Theorem batch_calls_in_order (items : list DataLoaderItem) rc (st st' : State)
    (v : value) :
  callDataLoader W (LoaderBatch items) rc st = Ok v st' ->
  st' = record_calls (flat_map (item_events (dataLoaderFetcher st) rc) items) st
  /\ exists returned,
       mapM (call_item W rc) items st = Ok returned st'
       /\ length returned = length items
       /\ v = VPromise (promise_all returned).
Proof.
  simpl. unfold bind, ret.
  destruct (mapM (call_item W rc) items st) as [returned st1|e st1] eqn:Hm; [|done].
  intros [= <- <-]. destruct (mapM_call_item_events _ _ _ _ _ Hm) as [Hst Hlen].
  split; [done|]. by exists returned.
Qed.

(** X2: when an item of a batch throws as it is called (a throwing function,
    or a descriptor while no fetcher is registered), the batch throws that
    error at once: the items after it are never called, and no promise is
    made for the items already called. *)
Theorem batch_stops_at_throw (pre post : list DataLoaderItem) (item : DataLoaderItem)
    rc (st st1 st2 : State) (started : list value) (e : value) :
  mapM (call_item W rc) pre st = Ok started st1 ->
  call_item W rc item st1 = Throw e st2 ->
  callDataLoader W (LoaderBatch (pre ++ item :: post)) rc st = Throw e st2
  /\ st2 = record_calls (item_events (dataLoaderFetcher st1) rc item) st1.
Proof.
  intros Hpre Hitem. split.
  - simpl. unfold bind. rewrite mapM_app, Hpre. simpl. unfold bind.
    by rewrite Hitem.
  - pose proof (call_item_events rc item st1) as H. by rewrite Hitem in H.
Qed.

Lemma await_promise_all (vs : list value) :
  await (VPromise (promise_all vs)) = promise_all vs.
Proof.
  unfold promise_all. simpl.
  destruct (earliest_rejection vs) as [[t e]|]; [done|].
  by destruct (all_fulfilled (map await vs)).
Qed.

(** X3: getData on a cache miss for a batch-form loader resolves to the
    results of the items in the order of the declaration once all are
    fulfilled, whatever the order in which they settle, and rejects as soon
    as one of them is rejected. *)
Theorem getData_batch cfg id options (st st' : State) (items : list DataLoaderItem)
    (returned : list value) :
  cache st !! lookup_key id options = None ->
  cfg !! id = Some (LoaderBatch items) ->
  mapM (call_item W here) items st = Ok returned st' ->
  getData W cfg id options st = (promise_all returned, st')
  /\ (forall results,
        Forall2 (fun v x => await v = Fulfilled x) returned results ->
        getData W cfg id options st = (Fulfilled (VArr results), st'))
  /\ (forall v e, v ∈ returned -> await v = Rejected e ->
        exists e', getData W cfg id options st = (Rejected e', st')).
Proof.
  intros Hc Hl Hm.
  assert (getData W cfg id options st = (promise_all returned, st')) as Hget.
  { rewrite (getData_on_demand _ _ _ _ _ Hc Hl). simpl. unfold bind, ret.
    by rewrite Hm, await_promise_all. }
  split; [done|]. split.
  - intros results Hall. by rewrite Hget, (promise_all_results _ _ Hall).
  - intros v e Hin Hv. destruct (promise_all_rejected _ _ _ Hin Hv) as [e' He'].
    exists e'. by rewrite Hget, He'.
Qed.

(** X4: a batch-form loader seeded at bootstrap is stored as one promise,
    not as an array, and getData(id) on that LOADING record resolves to the
    same Promise.all result, calling nothing. *)
Theorem seeded_batch_retrieved cfg (data : gmap string value) (mode : option string)
    (id : string) (items : list DataLoaderItem) (st st1 : State)
    (returned : list value) :
  resolving data mode id = true ->
  cfg !! id = Some (LoaderBatch items) ->
  mapM (call_item W here) items (hydrated data mode id st) = Ok returned st1 ->
  let st2 := set_cache (<[id := loading (VPromise (promise_all returned))]> (cache st1)) st1 in
  seed_id W cfg data mode id st = Ok tt st2
  /\ getData W cfg id None st2 = (promise_all returned, st2).
Proof.
  intros Hres Hl Hm st2.
  assert (truthy (property data id) && mode_is mode "SSR" = false) as Hskip.
  { unfold resolving in Hres. by destruct (_ && _). }
  split.
  - rewrite seed_id_cases, Hskip, (declared_own _ _ _ Hl). simpl. unfold bind, ret. by rewrite Hm.
  - assert (cache st2 !! lookup_key id None
            = Some (loading (VPromise (promise_all returned)))) as Hc
      by apply lookup_insert_eq.
    unfold getData. rewrite getData_lookup, Hc. simpl.
    destruct (promise_all returned) as [v| |] eqn:Hp; try done.
    rewrite <- Hp, <- await_promise_all, Hp. done.
Qed.

(** ** What retrieval and seeding leave alone *)

Lemma getData_trace cfg id options (st : State) :
  exists evs, snd (getData W cfg id options st) = record_calls evs st.
Proof.
  unfold getData. rewrite getData_lookup.
  destruct (cache st !! lookup_key id options) as [r|].
  - exists []. rewrite record_calls_nil.
    destruct (String.eqb (status r) "RESOLVED"); [done|]. by destruct (value_of r).
  - destruct (declared cfg id) as [d|].
    + destruct (callDataLoader_trace d here st) as [evs Hevs]. exists evs.
      by destruct (callDataLoader W d here st).
    + exists []. by rewrite record_calls_nil.
Qed.

Lemma getData_many_trace cfg (requests : list (string * option GetDataOptions))
    (st : State) :
  exists evs, snd (getData_many W cfg requests st) = record_calls evs st.
Proof.
  revert st. induction requests as [|[id options] requests IH]; intros st; simpl.
  - exists []. by rewrite record_calls_nil.
  - destruct (getData_trace cfg id options st) as [evs1 H1].
    destruct (getData W cfg id options st) as [p st1]. simpl in H1. subst st1.
    destruct (IH (record_calls evs1 st)) as [evs2 H2].
    destruct (getData_many W cfg requests (record_calls evs1 st)) as [ps st2].
    simpl in *. subst st2. exists (evs1 ++ evs2). apply record_calls_app.
Qed.

(** X5: getData never writes: after any run of getData calls the cache, the
    fetcher slot, the installed handle and the logged errors are what they
    were, and the trace of external calls has only grown. *)
Theorem getData_many_frame cfg (requests : list (string * option GetDataOptions))
    (st : State) :
  let st' := snd (getData_many W cfg requests st) in
  cache st' = cache st
  /\ dataLoaderFetcher st' = dataLoaderFetcher st
  /\ ICE_DATA_LOADER st' = ICE_DATA_LOADER st
  /\ console_error st' = console_error st
  /\ exists evs, calls st' = calls st ++ evs.
Proof.
  destruct (getData_many_trace cfg requests st) as [evs ->]. simpl. eauto 10.
Qed.

Lemma hydrated_frame (data : gmap string value) mode id (st : State) :
  dataLoaderFetcher (hydrated data mode id st) = dataLoaderFetcher st
  /\ ICE_DATA_LOADER (hydrated data mode id st) = ICE_DATA_LOADER st
  /\ console_error (hydrated data mode id st) = console_error st.
Proof. unfold hydrated. by destruct (truthy _). Qed.

Lemma seed_id_frame cfg (data : gmap string value) mode id (st : State) :
  let st' := final_state (seed_id W cfg data mode id st) in
  dataLoaderFetcher st' = dataLoaderFetcher st
  /\ ICE_DATA_LOADER st' = ICE_DATA_LOADER st
  /\ console_error st' = console_error st.
Proof.
  destruct (hydrated_frame data mode id st) as (Hf & Hh & Hc).
  destruct (seed_id_final cfg data mode id st) as [evs [H|[loader [H _]]]];
    simpl; rewrite H; simpl; by rewrite Hf, Hh, Hc.
Qed.

Lemma forEach_seed_frame cfg (data : gmap string value) mode (ids : list string)
    (st : State) :
  let st' := final_state (forEach (seed_id W cfg data mode) ids st) in
  dataLoaderFetcher st' = dataLoaderFetcher st
  /\ ICE_DATA_LOADER st' = ICE_DATA_LOADER st
  /\ console_error st' = console_error st
  /\ exists evs, calls st' = calls st ++ evs.
Proof.
  revert st. induction ids as [|id ids IH]; intros st; simpl.
  - repeat split; try done. exists []. by rewrite app_nil_r.
  - unfold bind. destruct (seed_id_frame cfg data mode id st) as (Hf & Hh & Hc).
    destruct (seed_id_calls cfg data mode id st) as [evs1 Ht].
    destruct (seed_id W cfg data mode id st) as [[] st1|e st1]; simpl in *.
    + destruct (IH st1) as (Hf' & Hh' & Hc' & evs2 & Ht').
      rewrite Hf', Hh', Hc', Ht', Hf, Hh, Hc, Ht. repeat split; try done.
      exists (evs1 ++ evs2). by rewrite app_assoc.
    + repeat split; try done. by exists evs1.
Qed.

(** X6: seeding, whether it returns or throws, touches only the cache and
    the trace: it leaves the fetcher slot and the installed handle alone,
    logs nothing itself, and never removes a call from the trace. *)
Theorem seeding_frame cfg context (st : State) :
  let st' := final_state (loadInitialDataInClient W cfg context st) in
  dataLoaderFetcher st' = dataLoaderFetcher st
  /\ ICE_DATA_LOADER st' = ICE_DATA_LOADER st
  /\ console_error st' = console_error st
  /\ exists evs, calls st' = calls st ++ evs.
Proof. apply forEach_seed_frame. Qed.

(** ** The keys and the records of the cache *)

Lemma seed_id_other_key cfg (data : gmap string value) mode (id key : string)
    (st : State) :
  key <> id ->
  (mode_is mode "SSG" = true -> key <> id +:+ "_ssg") ->
  cache (final_state (seed_id W cfg data mode id st)) !! key = cache st !! key.
Proof.
  intros Hid Hssg.
  assert (cache (hydrated data mode id st) !! key = cache st !! key) as Hh.
  { unfold hydrated. destruct (truthy (property data id)); [|done]. simpl.
    apply lookup_insert_ne. destruct (mode_is mode "SSG"); [|done].
    intros H. by apply Hssg. }
  destruct (seed_id_final cfg data mode id st) as [evs [H|[loader [H _]]]];
    rewrite H; simpl; [done|].
  by rewrite lookup_insert_ne.
Qed.

Lemma forEach_seed_other_key cfg (data : gmap string value) mode (ids : list string)
    (key : string) (st : State) :
  key ∉ ids ->
  (mode_is mode "SSG" = true -> forall id, id ∈ ids -> key <> id +:+ "_ssg") ->
  cache (final_state (forEach (seed_id W cfg data mode) ids st)) !! key
  = cache st !! key.
Proof.
  revert st. induction ids as [|id ids IH]; intros st Hnotin Hssg; simpl; [done|].
  apply not_elem_of_cons in Hnotin as [Hne Hnotin].
  unfold bind.
  pose proof (seed_id_other_key cfg data mode id key st Hne) as Hstep.
  destruct (seed_id W cfg data mode id st) as [[] st1|e st1]; simpl in Hstep.
  - rewrite IH; [apply Hstep| done |].
    + intros Hm. apply Hssg; [done|by left].
    + intros Hm id' Hin. apply Hssg; [done|by right].
  - simpl. apply Hstep. intros Hm. apply Hssg; [done|by left].
Qed.

(** X7: seeding writes only under the seeded ids (_app and the matched
    ids) and, on a static-generation page, under their _ssg keys: a record
    under any other key is left as it was, and no record appears there. *)
Theorem seeding_other_keys cfg context (key : string) (st : State) :
  key ∉ seeded_ids context ->
  (context ≫= renderMode = Some "SSG" ->
   forall id, id ∈ seeded_ids context -> key <> id +:+ "_ssg") ->
  cache (final_state (loadInitialDataInClient W cfg context st)) !! key
  = cache st !! key.
Proof.
  intros Hnotin Hssg. apply forEach_seed_other_key; [done|].
  intros Hm. apply Hssg. unfold mode_is in Hm.
  destruct (context ≫= renderMode) as [m|]; [|done].
  by apply String.eqb_eq in Hm as ->.
Qed.

Lemma cache_ok_insert (c : gmap string CachedResult) (key : string) (r : CachedResult) :
  cache_ok c -> record_ok r -> cache_ok (<[key := r]> c).
Proof.
  intros Hc Hr key' r'. destruct (decide (key = key')) as [->|Hne].
  - rewrite lookup_insert_eq. by intros [= <-].
  - rewrite lookup_insert_ne by done. apply Hc.
Qed.

Lemma seed_id_cache_ok cfg (data : gmap string value) mode id (st : State) :
  cache_ok (cache st) ->
  cache_ok (cache (final_state (seed_id W cfg data mode id st))).
Proof.
  intros Hok.
  assert (cache_ok (cache (hydrated data mode id st))) as Hh.
  { unfold hydrated. destruct (truthy (property data id)) eqn:Ht; [|done]. simpl.
    apply cache_ok_insert; [done|]. left. by split. }
  destruct (seed_id_final cfg data mode id st) as [evs [H|[loader [H _]]]];
    rewrite H; simpl; [done|].
  apply cache_ok_insert; [done|]. by right.
Qed.

Lemma seeding_cache_ok cfg context (st : State) :
  cache_ok (cache st) ->
  cache_ok (cache (final_state (loadInitialDataInClient W cfg context st))).
Proof.
  unfold loadInitialDataInClient.
  set (data := default ∅ (context ≫= routesData)).
  set (mode := context ≫= renderMode).
  generalize (seeded_ids context) as ids. intros ids. revert st.
  induction ids as [|id ids IH]; intros st Hok; simpl; [done|].
  unfold bind. pose proof (seed_id_cache_ok cfg data mode id st Hok) as Hstep.
  destruct (seed_id W cfg data mode id st) as [[] st1|e st1]; simpl in Hstep; [|done].
  by apply IH.
Qed.

Lemma init_cache cfg options context (st0 : State) :
  cache (snd (init W cfg options context st0))
  = cache (final_state (loadInitialDataInClient W cfg context
                          (before_seeding W options st0)))
  \/ cache (snd (init W cfg options context st0)) = cache st0.
Proof.
  unfold init. destruct (run_plugins_trace options st0) as [evs [Hst _]].
  destruct (run_plugins W options st0) as [p st1]. simpl in Hst. subst st1.
  destruct p; simpl; [left; apply seed_and_install_cache|by right..].
Qed.

(** X8: every record that init and getData leave in the cache is either
    RESOLVED with truthy data or LOADING: starting from a cache of such
    records, however init settles and whatever getData calls follow, the
    cache holds only such records. *)
Theorem cache_records_ok cfg options context
    (requests : list (string * option GetDataOptions)) (st0 : State) :
  cache_ok (cache st0) ->
  cache_ok (cache (snd (getData_many W cfg requests
                          (snd (init W cfg options context st0))))).
Proof.
  intros Hok.
  destruct (getData_many_trace cfg requests (snd (init W cfg options context st0)))
    as [evs ->]. simpl.
  destruct (init_cache cfg options context st0) as [-> | ->]; [|done].
  apply seeding_cache_ok. by rewrite before_seeding_cache.
Qed.

(** ** Server-rendered pages *)

Lemma forEach_ssr_hydrated cfg (data : gmap string value) (ids : list string)
    (st : State) :
  (forall id, id ∈ ids -> truthy (property data id) = true \/ declared cfg id = None) ->
  let r := forEach (seed_id W cfg data (Some "SSR")) ids st in
  r = Ok tt (final_state r)
  /\ calls (final_state r) = calls st
  /\ forall id, id ∈ ids -> truthy (property data id) = true ->
       cache (final_state r) !! id = Some (resolved (property data id)).
Proof.
  revert st. induction ids as [|id ids IH]; intros st Hids; simpl.
  { repeat split; try done. intros id Hin. by apply elem_of_nil in Hin. }
  unfold bind.
  assert (seed_id W cfg data (Some "SSR") id st
          = Ok tt (hydrated data (Some "SSR") id st)) as ->.
  { rewrite seed_id_cases. destruct (truthy (property data id)) eqn:Ht; simpl; [done|].
    destruct (Hids id) as [H|H]; [by left|congruence|by rewrite H]. }
  destruct (IH (hydrated data (Some "SSR") id st)) as (Hok & Hcalls & Hcache).
  { intros id' Hin. apply Hids. by right. }
  split; [done|]. split; [by rewrite Hcalls, hydrated_calls|].
  intros id' Hin Ht. destruct (decide (id' ∈ ids)) as [Hrest|Hrest]; [by apply Hcache|].
  apply elem_of_cons in Hin as [->|Hin]; [|done].
  rewrite forEach_seed_other_key; [|done|done].
  unfold hydrated. rewrite Ht. simpl. apply lookup_insert_eq.
Qed.

(** X9: on a server-rendered page where every seeded id has truthy
    hydration data or nothing under its name in the loader config, own or
    inherited, seeding cannot fail and calls nothing, no loader and no
    fetcher, whatever loaders are declared for the hydrated ids; every
    hydrated id ends with its RESOLVED record under its own key. *)
Theorem ssr_hydrated_seeding cfg context (st : State) :
  context ≫= renderMode = Some "SSR" ->
  (forall id, id ∈ seeded_ids context ->
     truthy (property (default ∅ (context ≫= routesData)) id) = true
     \/ declared cfg id = None) ->
  let r := loadInitialDataInClient W cfg context st in
  r = Ok tt (final_state r)
  /\ calls (final_state r) = calls st
  /\ forall id, id ∈ seeded_ids context ->
       truthy (property (default ∅ (context ≫= routesData)) id) = true ->
       cache (final_state r) !! id
       = Some (resolved (property (default ∅ (context ≫= routesData)) id)).
Proof.
  intros Hmode Hids. unfold loadInitialDataInClient. rewrite Hmode.
  by apply forEach_ssr_hydrated.
Qed.

(** ** How often seeding calls a loader *)

Lemma item_events_loader_calls (f : fn_id) (slot : option fn_id) rc
    (items : list DataLoaderItem) :
  loader_calls f (flat_map (item_events slot rc) items : list (event RequestContext))
  = sum_list (map (item_refs f) items).
Proof.
  induction items as [|item items IH]; simpl; [done|].
  rewrite loader_calls_app, IH. f_equal.
  destruct item as [g|config]; simpl.
  - apply loader_calls_one.
  - by destruct slot.
Qed.

Lemma callDataLoader_calls_eq (f : fn_id) (dataLoader : DataLoaderConfig) rc
    (st st' : State) (v : value) :
  callDataLoader W dataLoader rc st = Ok v st' ->
  loader_calls f (calls st') = loader_calls f (calls st) + refs f (Some dataLoader).
Proof.
  destruct dataLoader as [g|config|items]; intros Hcall.
  - pose proof (external_trace (EvLoader g rc) (loader_fn W g rc) st) as H.
    simpl in Hcall. rewrite Hcall in H. simpl in H. subst st'.
    by rewrite loader_calls_record, loader_calls_one.
  - pose proof (call_item_events rc (ItemDescriptor config) st) as H.
    simpl in Hcall, H. rewrite Hcall in H. simpl in H. subst st'.
    rewrite loader_calls_record.
    pose proof (item_events_loader_calls f (dataLoaderFetcher st) rc
                  [ItemDescriptor config]) as Hz.
    simpl in Hz. rewrite app_nil_r in Hz. simpl. lia.
  - simpl in Hcall. unfold bind, ret in Hcall.
    destruct (mapM (call_item W rc) items st) as [returned st1|e st1] eqn:Hm; [|done].
    injection Hcall as _ <-.
    destruct (mapM_call_item_events _ _ _ _ _ Hm) as [-> _].
    by rewrite loader_calls_record, item_events_loader_calls.
Qed.

Lemma seed_id_calls_eq cfg (data : gmap string value) mode (f : fn_id) (id : string)
    (st st' : State) :
  seed_id W cfg data mode id st = Ok tt st' ->
  loader_calls f (calls st')
  = loader_calls f (calls st)
    + (if resolving data mode id then refs f (declared cfg id) else 0).
Proof.
  rewrite seed_id_cases. unfold resolving.
  destruct (truthy (property data id) && mode_is mode "SSR"); simpl.
  { intros [= <-]. rewrite hydrated_calls. lia. }
  destruct (declared cfg id) as [d|].
  2:{ intros [= <-]. rewrite hydrated_calls. simpl. lia. }
  destruct (callDataLoader W d here (hydrated data mode id st)) as [v st1|e st1]
    eqn:Hcall; [|done].
  intros [= <-]. simpl.
  rewrite (callDataLoader_calls_eq f d here _ _ _ Hcall), hydrated_calls. done.
Qed.

Lemma forEach_calls_eq cfg (data : gmap string value) mode (f : fn_id)
    (ids : list string) (st st' : State) :
  forEach (seed_id W cfg data mode) ids st = Ok tt st' ->
  loader_calls f (calls st')
  = loader_calls f (calls st)
    + declared_calls f cfg (List.filter (resolving data mode) ids).
Proof.
  revert st. induction ids as [|id ids IH]; intros st; simpl.
  - intros [= <-]. unfold declared_calls. simpl. lia.
  - unfold bind.
    destruct (seed_id W cfg data mode id st) as [[] st1|e st1] eqn:Hstep; [|done].
    intros Hrest. rewrite (IH _ Hrest), (seed_id_calls_eq _ _ _ f _ _ _ Hstep).
    destruct (resolving data mode id); unfold declared_calls; simpl; lia.
Qed.

(** X10: when seeding returns, each loader function has been called exactly
    as often as it is declared by the seeded ids that needed their loader
    (all of them, each as often as it is listed, except those with hydration
    data on a server-rendered page): seeding skips no declared loader and
    repeats none. *)
Theorem seeding_calls_exact cfg context (f : fn_id) (st st' : State) :
  loadInitialDataInClient W cfg context st = Ok tt st' ->
  loader_calls f (calls st')
  = loader_calls f (calls st)
    + declared_calls f cfg
        (List.filter (resolving (default ∅ (context ≫= routesData))
                        (context ≫= renderMode))
           (seeded_ids context)).
Proof. apply forEach_calls_eq. Qed.

(** ** Static-generation pages *)

(** X11: on a static-generation page, the seeding step of an id with truthy
    hydration data and a loader whose resolution returns leaves two records,
    the snapshot under id_ssg and the LOADING record under id, and retrieval
    keeps them apart: getData(id, {ssg: true}) resolves to the snapshot
    record, getData(id) to what the loader gives, and neither calls
    anything. *)
Theorem ssg_two_records cfg (data : gmap string value) (mode : option string)
    (id : string) (v loader : value) (dataLoader : DataLoaderConfig)
    (st st1 : State) :
  mode_is mode "SSG" = true ->
  data !! id = Some v ->
  truthy v = true ->
  cfg !! id = Some dataLoader ->
  callDataLoader W dataLoader here (hydrated data mode id st) = Ok loader st1 ->
  let st2 := set_cache (<[id := loading loader]>
                          (<[id +:+ "_ssg" := resolved v]> (cache st))) st1 in
  seed_id W cfg data mode id st = Ok tt st2
  /\ getData W cfg id ssg_true st2
     = (Fulfilled (VObj [("value", v); ("status", VStr "RESOLVED")]), st2)
  /\ getData W cfg id None st2 = (unwrapped loader, st2).
Proof.
  intros Hssg Hv Ht Hd Hcall st2.
  assert (mode_is mode "SSR" = false) as Hssr.
  { unfold mode_is in *. destruct mode as [m|]; [|done].
    apply String.eqb_eq in Hssg as ->. reflexivity. }
  assert (cache st1 = <[id +:+ "_ssg" := resolved v]> (cache st)) as Hc1.
  { destruct (callDataLoader_trace dataLoader here (hydrated data mode id st))
      as [evs Hevs].
    rewrite Hcall in Hevs. simpl in Hevs. subst st1. simpl.
    unfold hydrated. by rewrite (property_lookup _ _ _ Hv), Ht, Hssg. }
  split; [|split].
  - rewrite seed_id_cases, (property_lookup _ _ _ Hv), Ht, Hssr,
      (declared_own _ _ _ Hd). simpl.
    rewrite Hcall. subst st2. by rewrite Hc1.
  - apply (getData_resolved cfg id ssg_true st2 (resolved v)); [|done].
    subst st2. simpl. unfold lookup_key. simpl.
    rewrite lookup_insert_ne by apply ssg_key_fresh. apply lookup_insert_eq.
  - apply (getData_loading cfg id None st2 (loading loader)); [|done].
    subst st2. simpl. apply lookup_insert_eq.
Qed.

(** ** init: plugins, fetcher, handle *)

(** X12: when the plugins do not all settle well (one throws on being
    started, one of the returned promises rejects, or one never settles),
    init settles the same way and does nothing further: the fetcher is not
    registered, nothing is seeded, no error is logged, the handle is not
    installed, and no loader or fetcher has been called. *)
Theorem init_stops_at_plugin_failure cfg options context (st0 : State) :
  (forall u, fst (run_plugins W options st0) <> Fulfilled u) ->
  let st := snd (init W cfg options context st0) in
  fst (init W cfg options context st0) = fst (run_plugins W options st0)
  /\ cache st = cache st0
  /\ dataLoaderFetcher st = dataLoaderFetcher st0
  /\ ICE_DATA_LOADER st = ICE_DATA_LOADER st0
  /\ console_error st = console_error st0
  /\ exists evs, calls st = calls st0 ++ evs
                 /\ Forall (fun ev => is_data_call ev = false) evs.
Proof.
  intros Hfail. unfold init.
  destruct (run_plugins_trace options st0) as [evs [Hst Hevs]].
  destruct (run_plugins W options st0) as [p st1]. simpl in *. subst st1.
  destruct p as [u| |]; [by destruct (Hfail u)|simpl; eauto 10..].
Qed.

(** X13: starting without a handle, the getData handle is there after init
    exactly when init is fulfilled; it then closes over the loader config
    given to init, and otherwise calling it fails. *)
Theorem handle_iff_fulfilled cfg options context (st0 : State) :
  ICE_DATA_LOADER st0 = None ->
  let result := init W cfg options context st0 in
  (fst result = Fulfilled VUndefined
   /\ forall id o, window_getData W id o (snd result)
                   = Some (getData W cfg id o (snd result)))
  \/ ((forall u, fst result <> Fulfilled u)
      /\ forall id o, window_getData W id o (snd result) = None).
Proof.
  intros Hnone result. subst result. unfold init.
  destruct (run_plugins_trace options st0) as [evs [Hst _]].
  destruct (run_plugins W options st0) as [p st1]. simpl in Hst. subst st1.
  destruct p as [u| |]; simpl.
  - left. split; [done|]. intros id o. reflexivity.
  - right. split; [done|]. intros id o. unfold window_getData. simpl. by rewrite Hnone.
  - right. split; [done|]. intros id o. unfold window_getData. simpl. by rewrite Hnone.
Qed.

Lemma before_seeding_slot options (st0 : State) :
  dataLoaderFetcher (before_seeding W options st0)
  = registered options (dataLoaderFetcher st0).
Proof.
  unfold before_seeding, register_fetcher, registered.
  destruct (run_plugins_trace options st0) as [evs [-> _]].
  by destruct (fetcher options).
Qed.

(** X14: options.fetcher, when given, is registered before seeding starts
    and replaces whatever fetcher was registered before; when absent, the
    earlier fetcher stays. So a descriptor-form loader resolved while
    seeding goes to options.fetcher with the descriptor as its only
    argument, and the slot still holds that fetcher once init is done. *)
Theorem fetcher_registered_before_seeding cfg options context (st0 : State)
    (u : value) :
  fst (run_plugins W options st0) = Fulfilled u ->
  dataLoaderFetcher (before_seeding W options st0)
    = registered options (dataLoaderFetcher st0)
  /\ dataLoaderFetcher (snd (init W cfg options context st0))
     = registered options (dataLoaderFetcher st0)
  /\ (forall g config rc, fetcher options = Some g ->
        final_state (callDataLoader W (LoaderDescriptor config) rc
                       (before_seeding W options st0))
        = record_calls [EvFetcher g config] (before_seeding W options st0)).
Proof.
  intros Hp. pose proof (before_seeding_slot options st0) as Hslot.
  split; [done|]. split.
  - rewrite (init_after_plugins _ _ _ _ _ Hp).
    unfold seed_and_install.
    destruct (forEach_seed_frame cfg (default ∅ (context ≫= routesData))
                (context ≫= renderMode) (seeded_ids context)
                (before_seeding W options st0)) as [Hf _].
    fold (loadInitialDataInClient W cfg context (before_seeding W options st0)) in Hf.
    destruct (loadInitialDataInClient W cfg context (before_seeding W options st0));
      simpl in *; by rewrite Hf.
  - intros g config rc Hg. simpl. unfold loadDataByCustomFetcher.
    rewrite Hslot. unfold registered. rewrite Hg. apply external_trace.
Qed.

Lemma mapM_run_plugin_started api (modules : list RuntimeModule) (st : State) :
  (forall module t, module ∈ modules ->
     exists v, plugin_fn W (plugin_of module) api t = Returns v) ->
  exists started,
    mapM (run_plugin W api) modules st
    = Ok started (record_calls (plugin_events api modules) st)
    /\ length started = length modules.
Proof.
  revert st. induction modules as [|m modules IH]; intros st Hret; simpl.
  - exists []. by rewrite record_calls_nil.
  - unfold bind, run_plugin at 1, external.
    destruct (Hret m (calls st)) as [v ->]; [by left|].
    destruct (IH (record_call (EvPlugin (plugin_of m) api) st)) as (started & -> & Hlen).
    { intros m' t Hin. apply Hret. by right. }
    exists (v :: started). simpl. rewrite Hlen. split; [|done].
    unfold ret. f_equal. rewrite record_call_calls. apply record_calls_app.
Qed.

(** X15: when no plugin throws on being started, every runtime module is
    started, once and in the order of the list, with the same runtime API
    object, a CommonJS module through its default export, before init awaits
    any of them: a plugin whose promise rejects does not keep the plugins
    after it from being started. *)
Theorem plugins_all_started options (modules : list RuntimeModule) (st : State) :
  runtimeModules options = Some modules ->
  (forall module t, module ∈ modules ->
     exists v, plugin_fn W (plugin_of module) (runtimeApi options) t = Returns v) ->
  snd (run_plugins W options st)
  = record_calls (plugin_events (runtimeApi options) modules) st.
Proof.
  intros Hm Hret. unfold run_plugins. rewrite Hm.
  by destruct (mapM_run_plugin_started (runtimeApi options) modules st Hret)
    as (started & -> & _).
Qed.

(** X16: a plugin that throws on being started rejects init with what it
    threw, at once: the plugins after it are never started and the ones
    already started are not awaited. *)
Theorem plugin_throw_rejects_init cfg options context
    (pre post : list RuntimeModule) (module : RuntimeModule)
    (st st1 : State) (started : list value) (e : value) :
  runtimeModules options = Some (pre ++ module :: post) ->
  mapM (run_plugin W (runtimeApi options)) pre st = Ok started st1 ->
  plugin_fn W (plugin_of module) (runtimeApi options) (calls st1) = Throws e ->
  init W cfg options context st
  = (Rejected e, record_call (EvPlugin (plugin_of module) (runtimeApi options)) st1).
Proof.
  intros Hm Hpre Hthrow. unfold init, run_plugins. rewrite Hm, mapM_app, Hpre.
  simpl. unfold bind, run_plugin at 1, external. by rewrite Hthrow.
Qed.

Lemma promise_all_settled (vs : list value) :
  Forall (fun v => exists x, await v = Fulfilled x) vs ->
  exists results, promise_all vs = Fulfilled (VArr results).
Proof.
  intros Hall.
  assert (exists results, Forall2 (fun v x => await v = Fulfilled x) vs results)
    as [results Hres].
  { induction Hall as [|v vs [x Hx] _ [results IH]].
    - exists []. constructor.
    - exists (x :: results). by constructor. }
  exists results. by apply promise_all_results.
Qed.

(** X17: init is fulfilled, with the handle installed, as soon as no plugin
    throws and every plugin returns either a falsy value, which is left out
    of the await, or something that is or becomes fulfilled. *)
Theorem init_fulfilled_when_plugins_settle cfg options context
    (modules : list RuntimeModule) (st st1 : State) (started : list value) :
  runtimeModules options = Some modules ->
  mapM (run_plugin W (runtimeApi options)) modules st = Ok started st1 ->
  Forall (fun v => truthy v = false \/ exists x, await v = Fulfilled x) started ->
  init W cfg options context st
  = (Fulfilled VUndefined, seed_and_install W cfg context (before_seeding W options st))
  /\ ICE_DATA_LOADER (snd (init W cfg options context st)) = Some cfg.
Proof.
  intros Hm Hstarted Hall.
  assert (exists u, fst (run_plugins W options st) = Fulfilled u) as [u Hu].
  { unfold run_plugins. rewrite Hm, Hstarted. simpl.
    destruct (promise_all_settled (List.filter truthy started)) as [results ->];
      [|by eexists].
    clear Hstarted. induction Hall as [|v vs Hv _ IH]; simpl; [constructor|].
    destruct (truthy v) eqn:Ht; [|done].
    constructor; [|done]. destruct Hv as [Hv|Hv]; [congruence|done]. }
  by rewrite (init_after_plugins _ _ _ _ _ Hu).
Qed.

(** ** Where a seeding error comes from *)

Lemma thrown_by_host_earlier rc (slot : option fn_id)
    (before evs1 trace : list (event RequestContext)) (e : value) :
  thrown_by_host W rc slot (before ++ evs1) trace e ->
  thrown_by_host W rc slot before trace e.
Proof.
  intros [(f & evs & -> & H)|(g & config & evs & Hs & -> & H)].
  - left. exists f, (evs1 ++ evs). by rewrite <- !app_assoc in *.
  - right. exists g, config, (evs1 ++ evs). by rewrite <- !app_assoc in *.
Qed.

Lemma call_item_throw_origin rc (item : DataLoaderItem) (st st' : State) (e : value) :
  call_item W rc item st = Throw e st' ->
  thrown_by_host W rc (dataLoaderFetcher st) (calls st) (calls st') e
  \/ (e = not_a_function /\ dataLoaderFetcher st = None).
Proof.
  destruct item as [f|config]; simpl.
  - unfold external. destruct (loader_fn W f rc (calls st)) eqn:Hf; [done|].
    intros [= -> <-]. left. left. exists f, []. simpl. by rewrite app_nil_r.
  - unfold loadDataByCustomFetcher. destruct (dataLoaderFetcher st) as [g|] eqn:Hslot.
    + unfold external. destruct (fetcher_fn W g config (calls st)) eqn:Hg; [done|].
      intros [= -> <-]. left. right. exists g, config, []. simpl.
      by rewrite app_nil_r.
    + intros [= <- _]. by right.
Qed.

Lemma callDataLoader_throw_origin (dataLoader : DataLoaderConfig) rc
    (st st' : State) (e : value) :
  callDataLoader W dataLoader rc st = Throw e st' ->
  thrown_by_host W rc (dataLoaderFetcher st) (calls st) (calls st') e
  \/ (e = not_a_function /\ dataLoaderFetcher st = None).
Proof.
  destruct dataLoader as [f|config|items].
  - apply (call_item_throw_origin rc (ItemFn f)).
  - apply (call_item_throw_origin rc (ItemDescriptor config)).
  - simpl. unfold bind.
    destruct (mapM (call_item W rc) items st) as [vs st1|e1 st1] eqn:Hm; [done|].
    intros [= -> ->]. revert st Hm.
    induction items as [|item items IH]; intros st; simpl; [done|].
    unfold bind. pose proof (call_item_events rc item st) as Hev.
    destruct (call_item W rc item st) as [v st1|e1 st1] eqn:Hitem.
    + simpl in Hev. subst st1.
      destruct (mapM (call_item W rc) items _) as [vs st2|e2 st2] eqn:Hrest; [done|].
      intros [= -> ->]. destruct (IH _ Hrest) as [H|H]; [|by right].
      left. simpl in H. by apply thrown_by_host_earlier in H.
    + intros [= -> ->]. by apply (call_item_throw_origin _ _ _ _ _ Hitem).
Qed.

Lemma seeding_throw_origin cfg (data : gmap string value) mode (ids : list string)
    (st st' : State) (e : value) :
  forEach (seed_id W cfg data mode) ids st = Throw e st' ->
  thrown_by_host W here (dataLoaderFetcher st) (calls st) (calls st') e
  \/ (e = not_a_function /\ dataLoaderFetcher st = None).
Proof.
  revert st. induction ids as [|id ids IH]; intros st; simpl; [done|].
  unfold bind. destruct (seed_id_frame cfg data mode id st) as [Hslot _].
  destruct (seed_id_calls cfg data mode id st) as [evs1 Hcalls].
  destruct (seed_id W cfg data mode id st) as [[] st1|e1 st1] eqn:Hstep.
  - simpl in Hslot, Hcalls. intros Hrest.
    destruct (IH _ Hrest) as [H|H]; rewrite Hslot in H; [|by right].
    left. rewrite Hcalls in H. by apply thrown_by_host_earlier in H.
  - intros [= -> ->].
    destruct (seed_id_throw _ _ _ _ _ _ _ Hstep) as [d [_ Hd]].
    destruct (hydrated_frame data mode id st) as [Hf _].
    pose proof (callDataLoader_throw_origin _ _ _ _ _ Hd) as H.
    by rewrite Hf, hydrated_calls in H.
Qed.

(** X18: an error with which seeding stops, the one init hands to
    console.error, is what the last call seeding made threw, that call being
    of a function called as a loader (one declared for a seeded id or one
    inherited from Object.prototype) or of the registered fetcher; or else
    it is the TypeError of a descriptor met while no fetcher is registered.
    Seeding raises no error of its own. *)
Theorem seeding_error_origin cfg context (st st' : State) (e : value) :
  loadInitialDataInClient W cfg context st = Throw e st' ->
  thrown_by_host W here (dataLoaderFetcher st) (calls st) (calls st') e
  \/ (e = not_a_function /\ dataLoaderFetcher st = None).
Proof. apply seeding_throw_origin. Qed.

Lemma declared_calls_pos (cfg : Loaders) (f : fn_id) (ids : list string) :
  0 < declared_calls f cfg ids ->
  exists id, id ∈ ids /\ 0 < refs f (declared cfg id).
Proof.
  unfold declared_calls. induction ids as [|id ids IH]; simpl; [lia|].
  intros H. destruct (decide (0 < refs f (declared cfg id))) as [Hid|Hid].
  - exists id. split; [by left|done].
  - destruct IH as (id' & Hin & Hpos); [lia|]. exists id'. split; [by right|done].
Qed.

(** X19: with a fetcher registered that does not throw, seeding returns, so
    that every seeded id is processed, as soon as none of the functions
    found under a seeded id in the loader config, own or inherited from
    Object.prototype, alone or in a batch, throws when it is called with the
    request context. *)
Theorem seeding_returns cfg context (st : State) (g : fn_id) :
  dataLoaderFetcher st = Some g ->
  (forall id f t, id ∈ seeded_ids context -> 0 < refs f (declared cfg id) ->
     exists v, loader_fn W f here t = Returns v) ->
  (forall config t, exists v, fetcher_fn W g config t = Returns v) ->
  loadInitialDataInClient W cfg context st
  = Ok tt (final_state (loadInitialDataInClient W cfg context st)).
Proof.
  intros Hg Hloaders Hfetcher.
  destruct (loadInitialDataInClient W cfg context st) as [[] st'|e st'] eqn:Hseed;
    [done|].
  unfold loadInitialDataInClient in Hseed.
  pose proof (forEach_calls_le cfg (default ∅ (context ≫= routesData))
                (context ≫= renderMode)) as Hle.
  destruct (seeding_throw_origin _ _ _ _ _ _ _ Hseed)
    as [[(f & evs & Ht & Hf)|(g' & config & evs & Hs & Ht & Hf)]|[_ Hnone]].
  - specialize (Hle f (seeded_ids context) st). rewrite Hseed in Hle. simpl in Hle.
    rewrite Ht, !loader_calls_app, loader_calls_one, String.eqb_refl in Hle.
    destruct (declared_calls_pos cfg f (seeded_ids context)) as (id & Hin & Hpos);
      [lia|].
    destruct (Hloaders id f (calls st ++ evs) Hin Hpos) as [v Hv]. congruence.
  - rewrite Hg in Hs. injection Hs as <-.
    destruct (Hfetcher config (calls st ++ evs)) as [v Hv]. congruence.
  - congruence.
Qed.

End Properties.

(** * The properties on the example page *)

Import Example.

Lemma getData_cached_witness :
  getData page home_loaders "_app" None (after_init home_loaders ssr_context)
    = (Fulfilled (VObj [("value", user_x); ("status", VStr "RESOLVED")]),
       after_init home_loaders ssr_context)
  /\ getData page list_loaders "list" None (after_init list_loaders list_context)
     = (Fulfilled (VArr [VNum 1; VNum 2]), after_init list_loaders list_context)
  /\ getData page home_loaders "home" None (after_init home_loaders ssr_context)
     = (Fulfilled (VObj [("from", VStr "fetchHomeData")]),
        after_init home_loaders ssr_context).
Proof.
  split; [|split].
  - destruct (getData_cached string string page home_loaders "_app" None
                (after_init home_loaders ssr_context) (resolved user_x) eq_refl)
      as [Hresolved _].
    exact (Hresolved eq_refl).
  - destruct (getData_cached string string page list_loaders "list" None
                (after_init list_loaders list_context)
                (loading (VArr [VPromise (Fulfilled (VNum 1)); VNum 2])) eq_refl)
      as [_ Hloading].
    destruct (Hloading eq_refl) as (_ & Hall & _).
    apply (Hall [VPromise (Fulfilled (VNum 1)); VNum 2] [VNum 1; VNum 2] eq_refl).
    repeat constructor.
  - destruct (getData_cached string string page home_loaders "home" None
                (after_init home_loaders ssr_context)
                (loading (VPromise (Fulfilled (VObj [("from", VStr "fetchHomeData")]))))
                eq_refl)
      as [_ Hloading].
    destruct (Hloading eq_refl) as (_ & _ & Hone).
    exact (Hone eq_refl).
Defined.

(** C6: with an empty cache and a loader config without declarations,
    getData('toString') does not resolve to null: the lookup in the config
    object finds the toString inherited from Object.prototype, the code
    calls it as a loader and resolves with what it returns. An id that is
    not the name of a member of Object.prototype, such as 'about', does
    resolve to null with nothing called. *)
Theorem getData_inherited_loader :
  no_loaders !! "toString" = None
  /\ cache (@fresh string) !! lookup_key "toString" None = None
  /\ getData browser no_loaders "toString" None fresh
     = (Fulfilled (VStr "[object Undefined]"),
        record_call (EvLoader "Object.prototype.toString" "https://example.com/home")
          fresh)
  /\ getData browser no_loaders "about" None fresh = (Fulfilled VNull, fresh).
Proof. repeat split; reflexivity. Qed.

Lemma descriptor_without_fetcher_witness :
  callDataLoader page (LoaderDescriptor api_home) "https://example.com/home" fresh
    = Throw not_a_function fresh
  /\ getData page home_descriptor "home" None fresh = (Rejected not_a_function, fresh).
Proof.
  destruct (descriptor_without_fetcher string string page api_home fresh eq_refl)
    as [Hcall Hget].
  split; [exact (Hcall "https://example.com/home")|].
  apply Hget; reflexivity.
Defined.

Lemma getData_on_demand_twice_witness :
  calls (snd (getData page home_loaders "home" None
                (snd (getData page home_loaders "home" None fresh))))
  = [EvLoader "fetchHomeData" "https://example.com/home";
     EvLoader "fetchHomeData" "https://example.com/home"]
  /\ cache (snd (getData page home_loaders "home" None
                   (snd (getData page home_loaders "home" None fresh)))) = ∅.
Proof.
  destruct (getData_on_demand_twice string string page home_loaders "home" None fresh
              (LoaderFn "fetchHomeData") eq_refl eq_refl)
    as (_ & Hcache & _ & _ & Hcalls).
  split; [exact (Hcalls "fetchHomeData" eq_refl)|exact Hcache].
Defined.

Lemma init_survives_seeding_error_witness :
  init page layout_loaders no_options ssg_layout_context fresh
    = (Fulfilled VUndefined,
       set_handle (Some layout_loaders) (log_error not_a_function fresh))
  /\ ICE_DATA_LOADER (after_init layout_loaders ssg_layout_context)
     = Some layout_loaders.
Proof.
  destruct (init_survives_seeding_error string string page layout_loaders no_options
              ssg_layout_context fresh fresh VUndefined not_a_function
              eq_refl eq_refl)
    as (Hinit & _ & Hhandle & _).
  split; [exact Hinit|exact Hhandle].
Defined.

Lemma seeding_stops_at_throw_witness :
  loadInitialDataInClient page layout_loaders ssg_layout_context fresh
    = Throw not_a_function fresh
  /\ cache (after_init layout_loaders ssg_layout_context) = ∅
  /\ ICE_DATA_LOADER (after_init layout_loaders ssg_layout_context)
     = Some layout_loaders.
Proof.
  destruct (seeding_stops_at_throw string string page layout_loaders no_options
              ssg_layout_context fresh fresh fresh VUndefined not_a_function
              ["_app"] ["home"] "layout" (LoaderDescriptor api_home)
              eq_refl eq_refl eq_refl eq_refl eq_refl eq_refl)
    as (Hseed & _ & _ & Hcache & Hhandle).
  split; [exact Hseed|]. split; [exact Hcache|exact Hhandle].
Defined.

Lemma csr_seeding_overwrites_hydration_witness :
  seed_id page home_loaders {[ "home" := user_x ]} (Some "CSR") "home" fresh
  = Ok tt (set_cache
             (<["home" := loading (VPromise (Fulfilled (VObj [("from", VStr "fetchHomeData")])))]>
                (<["home" := resolved user_x]> ∅))
             (record_call (EvLoader "fetchHomeData" "https://example.com/home")
                (hydrated {[ "home" := user_x ]} (Some "CSR") "home" fresh))).
Proof.
  edestruct (csr_seeding_overwrites_hydration string string page home_loaders
               {[ "home" := user_x ]} (Some "CSR") "home" user_x
               (LoaderFn "fetchHomeData") fresh)
    as (_ & Hok & _); [reflexivity..|].
  apply Hok. reflexivity.
Defined.

Lemma ssg_snapshot_served_witness :
  getData page home_loaders "home" ssg_true (after_init home_loaders ssg_context)
  = (Fulfilled (VObj [("value", user_x); ("status", VStr "RESOLVED")]),
     after_init home_loaders ssg_context).
Proof.
  apply (ssg_snapshot_served string string page home_loaders no_options ssg_context
           fresh (after_init home_loaders ssg_context) fresh ["_app"] [] "home" user_x);
    try reflexivity.
  intros id' Hin. by apply elem_of_nil in Hin.
Defined.

Lemma ssr_scenario_witness :
  getData page home_loaders "_app" None (after_init home_loaders ssr_context)
    = (Fulfilled (VObj [("value", VObj [("user", VStr "x")]);
                        ("status", VStr "RESOLVED")]),
       after_init home_loaders ssr_context)
  /\ loader_calls "fetchHomeData" (calls (after_init home_loaders ssr_context)) = 1.
Proof.
  destruct (ssr_scenario string string page no_options
              (after_init home_loaders ssr_context) eq_refl)
    as (Hget & Hcount & _).
  split; [exact Hget|exact Hcount].
Defined.

Lemma loading_record_shared_witness :
  getData_many page home_loaders [("home", None); ("home", None)]
    (after_init home_loaders csr_context)
  = ([Fulfilled (VObj [("from", VStr "fetchHomeData")]);
      Fulfilled (VObj [("from", VStr "fetchHomeData")])],
     after_init home_loaders csr_context)
  /\ loader_calls "fetchHomeData"
       (calls (snd (getData_many page home_loaders [("home", None); ("home", None)]
                      (after_init home_loaders csr_context)))) = 1.
Proof.
  destruct (loading_record_shared string string page home_loaders no_options
              csr_context (after_init home_loaders csr_context) "home"
              (loading (VPromise (Fulfilled (VObj [("from", VStr "fetchHomeData")]))))
              2 eq_refl eq_refl eq_refl)
    as (Hstate & Hresults & Hcount).
  split.
  - apply injective_projections; [exact Hresults|exact Hstate].
  - exact (Hcount "fetchHomeData" eq_refl eq_refl).
Defined.

(** ** Where the statements of the specification stop short *)

(** Against C2 as stated: a static-generation page with home in matchedIds
    and hydration data for home, whose layout route, seeded before home, has
    a descriptor-form loader while no fetcher is registered. Seeding stops at
    layout, the snapshot of home is never written, and
    getData('home', {ssg: true}) resolves to null, not to a RESOLVED
    record. *)
Lemma ssg_snapshot_not_served :
  let st := after_init layout_loaders ssg_layout_context in
  init page layout_loaders no_options ssg_layout_context fresh = (Fulfilled VUndefined, st)
  /\ getData page layout_loaders "home" ssg_true st = (Fulfilled VNull, st)
  /\ ~ (exists r, fst (getData page layout_loaders "home" ssg_true st)
                  = Fulfilled (record_object r)
                  /\ status r = "RESOLVED").
Proof.
  split; [reflexivity|]. split; [reflexivity|].
  intros (r & H & _). vm_compute in H. discriminate H.
Qed.

(** The snapshot is also lost when a later id is named like the snapshot
    key and has a loader: its LOADING record replaces the snapshot. *)
Example ssg_snapshot_replaced :
  let st := after_init clash_loaders ssg_clash_context in
  cache st !! "home_ssg"
    = Some (loading (VPromise (Fulfilled (VObj [("from", VStr "fetchOther")]))))
  /\ fst (getData page clash_loaders "home" ssg_true st)
     = Fulfilled (VObj [("from", VStr "fetchOther")]).
Proof. split; reflexivity. Qed.

(** Hydration data that is falsy, here [null], is not seeded at all: the
    retrieval falls through to the loader, which is called once more. *)
Example ssg_snapshot_null :
  let st := after_init home_loaders ssg_null_context in
  cache st !! "home_ssg" = None
  /\ calls (snd (getData page home_loaders "home" ssg_true st))
     = [EvLoader "fetchHomeData" "https://example.com/home";
        EvLoader "fetchHomeData" "https://example.com/home"].
Proof. split; reflexivity. Qed.

(** Against C3 as stated: in the scenario of the specification the home
    route has no hydration data, so seeding does call fetchHomeData, SSR or
    not. *)
Lemma scenario_loader_invoked :
  let st := after_init home_loaders ssr_context in
  init page home_loaders no_options ssr_context fresh = (Fulfilled VUndefined, st)
  /\ calls st = [EvLoader "fetchHomeData" "https://example.com/home"]
  /\ ~ (loader_calls "fetchHomeData"
          (calls (snd (getData page home_loaders "_app" None st))) = 0).
Proof.
  split; [reflexivity|]. split; [reflexivity|].
  intros H. vm_compute in H. discriminate H.
Qed.

(** Against C4 as stated: with the home route listed twice in matchedIds
    the loader is called twice while seeding; home is LOADING afterwards, and
    after two getData('home') calls the function has been called twice in
    all, not once. *)
Lemma loading_record_invoked_twice :
  let st := after_init home_loaders csr_twice_context in
  loading_at (cache st) "home"
  /\ loader_calls "fetchHomeData"
       (calls (snd (getData_many page home_loaders
                      [("home", None); ("home", None)] st))) = 2
  /\ ~ (loader_calls "fetchHomeData"
          (calls (snd (getData_many page home_loaders
                         [("home", None); ("home", None)] st))) = 1).
Proof.
  split; [|split].
  - eexists. split; reflexivity.
  - reflexivity.
  - intros H. vm_compute in H. discriminate H.
Qed.

(** Against C9 as stated: a client-side rendered page with hydration data
    for home and a descriptor-form loader while no fetcher is registered.
    Resolving the loader throws, the LOADING record is never written, and
    the hydration record stays under the key home. *)
Lemma csr_hydration_kept :
  let st := after_init home_descriptor csr_hydrated_context in
  cache st !! "home" = Some (resolved user_x)
  /\ ~ loading_at (cache st) "home".
Proof.
  split; [reflexivity|].
  intros (r & Hr & Hs). vm_compute in Hr. injection Hr as <-. discriminate Hs.
Qed.

(** A function-form loader that throws when called stops the seeding in the
    same way: the call is made, the error is logged, the ids after it are
    not seeded, and the handle is installed. *)
Example seeding_broken_loader :
  let st := after_init broken_loaders ssg_layout_context in
  cache st = ∅
  /\ calls st = [EvLoader "broken" "https://example.com/home"]
  /\ console_error st = [VError "Error" "boom"]
  /\ ICE_DATA_LOADER st = Some broken_loaders.
Proof. repeat split; reflexivity. Qed.

(** * The further properties on the example pages *)

Lemma batch_calls_in_order_witness :
  final_state (callDataLoader page (LoaderBatch batch_items)
                 "https://example.com/home" fetching)
  = record_calls [EvLoader "first" "https://example.com/home";
                  EvFetcher "fetch" api_home;
                  EvLoader "second" "https://example.com/home"] fetching.
Proof.
  edestruct (batch_calls_in_order string string page batch_items
               "https://example.com/home" fetching) as [Hst _]; [reflexivity|].
  exact Hst.
Defined.

Lemma batch_stops_at_throw_witness :
  callDataLoader page (LoaderBatch batch_items) "https://example.com/home" fresh
  = Throw not_a_function
      (record_call (EvLoader "first" "https://example.com/home") fresh).
Proof.
  edestruct (batch_stops_at_throw string string page [ItemFn "first"]
               [ItemFn "second"] (ItemDescriptor api_home)
               "https://example.com/home" fresh) as [Hthrow _];
    [reflexivity|reflexivity|].
  exact Hthrow.
Defined.

Lemma getData_batch_witness :
  fst (getData page batch_loaders "home" None fetching)
  = Fulfilled (VArr [VObj [("from", VStr "first")]; api_home;
                     VObj [("from", VStr "second")]]).
Proof.
  edestruct (getData_batch string string page batch_loaders "home" None fetching)
    as (_ & Hall & _); [reflexivity|reflexivity|reflexivity|].
  rewrite (Hall [VObj [("from", VStr "first")]; api_home;
                 VObj [("from", VStr "second")]]); [reflexivity|].
  repeat constructor.
Defined.

Lemma seeded_batch_retrieved_witness :
  fst (getData page batch_loaders "home" None
         (final_state (seed_id page batch_loaders ∅ (Some "CSR") "home" fetching)))
  = Fulfilled (VArr [VObj [("from", VStr "first")]; api_home;
                     VObj [("from", VStr "second")]]).
Proof.
  edestruct (seeded_batch_retrieved string string page batch_loaders ∅ (Some "CSR")
               "home" batch_items fetching) as [Hseed Hget];
    [reflexivity|reflexivity|reflexivity|].
  rewrite Hseed. cbn [final_state]. rewrite Hget. reflexivity.
Defined.

Lemma seeding_other_keys_witness :
  cache (final_state (loadInitialDataInClient page home_loaders ssg_context
                        (after_init home_loaders csr_hydrated_context))) !! "about"
  = None.
Proof.
  rewrite (seeding_other_keys string string page home_loaders ssg_context "about").
  - reflexivity.
  - apply not_elem_of_cons. split; [done|].
    apply not_elem_of_cons. split; [done|]. apply not_elem_of_nil.
  - intros _ id Hin. apply elem_of_cons in Hin as [->|Hin]; [done|].
    apply elem_of_cons in Hin as [->|Hin]; [done|]. by apply elem_of_nil in Hin.
Defined.

Lemma cache_records_ok_witness :
  cache_ok (cache (snd (getData_many page home_loaders [("home", None)]
                          (after_init home_loaders ssg_context)))).
Proof.
  apply (cache_records_ok string string page home_loaders no_options ssg_context
           [("home", None)] fresh).
  intros key r H. simpl in H. rewrite lookup_empty in H. discriminate H.
Defined.

Lemma ssr_hydrated_seeding_witness :
  calls (final_state (loadInitialDataInClient page home_loaders ssr_full_context fresh))
  = []
  /\ cache (final_state (loadInitialDataInClient page home_loaders ssr_full_context
                           fresh)) !! "home"
     = Some (resolved (VStr "home data")).
Proof.
  edestruct (ssr_hydrated_seeding string string page home_loaders ssr_full_context
               fresh) as (_ & Hcalls & Hcache).
  - reflexivity.
  - intros id Hin. apply elem_of_cons in Hin as [->|Hin]; [left; reflexivity|].
    apply elem_of_cons in Hin as [->|Hin]; [left; reflexivity|].
    by apply elem_of_nil in Hin.
  - split; [exact Hcalls|].
    rewrite (Hcache "home"); [reflexivity| |reflexivity].
    apply elem_of_cons. right. apply elem_of_cons. by left.
Defined.

Lemma seeding_calls_exact_witness :
  loader_calls "fetchHomeData"
    (calls (final_state (loadInitialDataInClient page home_loaders
                           csr_twice_context fresh))) = 2.
Proof.
  erewrite (seeding_calls_exact string string page home_loaders csr_twice_context
              "fetchHomeData" fresh); reflexivity.
Defined.

Lemma ssg_two_records_witness :
  fst (getData page home_loaders "home" ssg_true
         (final_state (seed_id page home_loaders {[ "home" := user_x ]} (Some "SSG")
                         "home" fresh)))
  = Fulfilled (VObj [("value", user_x); ("status", VStr "RESOLVED")])
  /\ fst (getData page home_loaders "home" None
            (final_state (seed_id page home_loaders {[ "home" := user_x ]} (Some "SSG")
                            "home" fresh)))
     = Fulfilled (VObj [("from", VStr "fetchHomeData")]).
Proof.
  edestruct (ssg_two_records string string page home_loaders {[ "home" := user_x ]}
               (Some "SSG") "home" user_x
               (VPromise (Fulfilled (VObj [("from", VStr "fetchHomeData")])))
               (LoaderFn "fetchHomeData") fresh)
    as (Hseed & Hsnap & Hload);
    [reflexivity|reflexivity|reflexivity|reflexivity|reflexivity|].
  rewrite Hseed. cbn [final_state]. rewrite Hsnap, Hload. split; reflexivity.
Defined.

Lemma init_stops_at_plugin_failure_witness :
  fst (init plugin_page home_loaders (with_modules [EsModule "bad"; EsModule "late"])
         csr_context fresh)
  = Rejected (VStr "bad")
  /\ cache (snd (init plugin_page home_loaders
                   (with_modules [EsModule "bad"; EsModule "late"])
                   csr_context fresh)) = ∅.
Proof.
  edestruct (init_stops_at_plugin_failure string string plugin_page home_loaders
               (with_modules [EsModule "bad"; EsModule "late"]) csr_context fresh)
    as (Hfst & Hcache & _).
  - intros u H. vm_compute in H. discriminate H.
  - split; [exact Hfst|exact Hcache].
Defined.

Lemma handle_iff_fulfilled_witness :
  window_getData page "_app" None (after_init home_loaders ssr_context)
  = Some (getData page home_loaders "_app" None (after_init home_loaders ssr_context)).
Proof.
  destruct (handle_iff_fulfilled string string page home_loaders no_options
              ssr_context fresh eq_refl) as [[_ Hget]|[Hnot _]].
  - apply Hget.
  - destruct (Hnot VUndefined). reflexivity.
Defined.

Lemma fetcher_registered_before_seeding_witness :
  dataLoaderFetcher (snd (init page home_descriptor (with_modules []) csr_context fresh))
  = Some "fetch"
  /\ calls (snd (init page home_descriptor (with_modules []) csr_context fresh))
     = [EvFetcher "fetch" api_home].
Proof.
  edestruct (fetcher_registered_before_seeding string string page home_descriptor
               (with_modules []) csr_context fresh) as (_ & Hslot & _);
    [reflexivity|].
  split; [exact Hslot|reflexivity].
Defined.

Lemma plugins_all_started_witness :
  calls (snd (run_plugins plugin_page
                (with_modules [EsModule "bad"; CommonJsRuntime "late"]) fresh))
  = [EvPlugin "bad" (runtimeApi (with_modules []));
     EvPlugin "late" (runtimeApi (with_modules []))].
Proof.
  rewrite (plugins_all_started string string plugin_page
             (with_modules [EsModule "bad"; CommonJsRuntime "late"])
             [EsModule "bad"; CommonJsRuntime "late"] fresh eq_refl).
  - reflexivity.
  - intros module t Hin. apply elem_of_cons in Hin as [->|Hin]; [eexists; reflexivity|].
    apply elem_of_cons in Hin as [->|Hin]; [eexists; reflexivity|].
    by apply elem_of_nil in Hin.
Defined.

Lemma plugin_throw_rejects_init_witness :
  init plugin_page home_loaders
    (with_modules [EsModule "ready"; EsModule "crash"; EsModule "late"])
    csr_context fresh
  = (Rejected (VError "Error" "crash"),
     record_calls [EvPlugin "ready" (runtimeApi (with_modules []));
                   EvPlugin "crash" (runtimeApi (with_modules []))] fresh).
Proof.
  rewrite (plugin_throw_rejects_init string string plugin_page home_loaders
             (with_modules [EsModule "ready"; EsModule "crash"; EsModule "late"])
             csr_context [EsModule "ready"] [EsModule "late"] (EsModule "crash")
             fresh
             (record_call (EvPlugin "ready" (runtimeApi (with_modules []))) fresh)
             [VPromise (Fulfilled (VNum 1))] (VError "Error" "crash"));
    reflexivity.
Defined.

Lemma init_fulfilled_when_plugins_settle_witness :
  ICE_DATA_LOADER
    (snd (init plugin_page home_loaders
            (with_modules [EsModule "ready"; EsModule "auth"]) csr_context fresh))
  = Some home_loaders.
Proof.
  edestruct (init_fulfilled_when_plugins_settle string string plugin_page home_loaders
               (with_modules [EsModule "ready"; EsModule "auth"]) csr_context
               [EsModule "ready"; EsModule "auth"] fresh) as [_ Hhandle].
  - reflexivity.
  - reflexivity.
  - constructor; [right; eexists; reflexivity|].
    constructor; [left; reflexivity|constructor].
  - exact Hhandle.
Defined.

Lemma seeding_error_origin_witness :
  thrown_by_host browser "https://example.com/home" None []
    [EvLoader "Object.prototype.valueOf" "https://example.com/home"]
    (VError "TypeError" "Cannot convert undefined or null to object")
  \/ (VError "TypeError" "Cannot convert undefined or null to object" = not_a_function
      /\ dataLoaderFetcher (@fresh string) = None).
Proof.
  apply (seeding_error_origin string string browser no_loaders valueOf_context fresh
           (final_state (loadInitialDataInClient browser no_loaders valueOf_context
                           fresh))).
  reflexivity.
Defined.

Lemma seeding_returns_witness :
  loadInitialDataInClient calm home_loaders csr_twice_context fetching
  = Ok tt (final_state (loadInitialDataInClient calm home_loaders csr_twice_context
                          fetching)).
Proof.
  apply (seeding_returns string string calm home_loaders csr_twice_context fetching
           "fetch").
  - reflexivity.
  - intros id f t _ _. eexists. reflexivity.
  - intros config t. eexists. reflexivity.
Defined.

(** ** Route ids named like members of Object.prototype *)

(** A server-rendered page with a route named constructor, a loader
    declared for it and no hydration data: the lookup in routesData finds
    the inherited constructor, which is truthy, so the route counts as
    hydrated, the inherited function is cached as its data, and the
    declared loader is not called. *)
Example seeding_inherited_hydration :
  let st := final_state (loadInitialDataInClient browser constructor_loaders
                           constructor_context fresh) in
  cache st !! "constructor"
    = Some (resolved (VFunction "Object.prototype.constructor"))
  /\ calls st = []
  /\ List.filter (resolving ∅ (Some "SSR")) (seeded_ids constructor_context) = ["_app"].
Proof. repeat split; reflexivity. Qed.

(** A server-rendered page whose hydration data for the route toString is
    null, with no loader declared: the data is falsy, the lookup in the
    loader config finds the inherited toString, and seeding calls it. *)
Example seeding_inherited_loader :
  let st := final_state (loadInitialDataInClient browser no_loaders
                           toString_null_context fresh) in
  no_loaders !! "toString" = None
  /\ calls st = [EvLoader "Object.prototype.toString" "https://example.com/home"]
  /\ cache st !! "toString" = Some (loading (VStr "[object Undefined]")).
Proof. repeat split; reflexivity. Qed.

(** A client-side rendered page with a route named valueOf and nothing
    declared: the inherited valueOf is cached as hydration data, then called
    as the loader of the route, and its TypeError stops the seeding. *)
Example seeding_inherited_throw :
  loadInitialDataInClient browser no_loaders valueOf_context fresh
  = Throw (VError "TypeError" "Cannot convert undefined or null to object")
      (record_call (EvLoader "Object.prototype.valueOf" "https://example.com/home")
         (set_cache {[ "valueOf" := resolved (VFunction "Object.prototype.valueOf") ]}
            fresh)).
Proof. reflexivity. Qed.

(** ** Promise.all and time *)

(** Of two members that reject, the aggregate keeps the reason of the one
    that rejects first in time, wherever it stands in the list. *)
Example promise_all_earliest :
  promise_all [VLater 5 (VPromise (Rejected (VStr "late")));
               VNum 1;
               VLater 1 (VPromise (Rejected (VStr "early")))]
  = Rejected (VStr "early").
Proof. reflexivity. Qed.
